(** * pypaperbak: the frame protocol of [pypaperbak/app.py]

    A shallow embedding of the framing code of [PyPaperbakApp]
    ([frame_data_func], [unframe_data]) and of the two loops that use it
    ([run_backup], [run_restore]), followed by the properties of the
    protocol.

    Python values are modelled as follows:
    - [bytes] objects are lists of [Byte.byte];
    - Python integers are [Z];
    - a raised exception is the [Raise] case of [result];
    - the output file of [run_restore] is the list of bytes it holds. *)

From Stdlib Require Import Strings.String.
From Stdlib Require Import ZArith List Bool Lia Permutation QArith Qround.
From Stdlib Require Import Strings.Byte.
Import ListNotations.

Local Open Scope Z_scope.

(** ** Exceptions *)

(** The three messages [unframe_data] attaches to [UnframeError]. *)
Inductive unframe_msg : Type :=
| NoMagic                  (* "Binary data without magic number" *)
| CrcMismatch              (* "CRC Checksum match error" *)
| BadVersion (version : Z) (* "Unrecognized frame version: %d" *).

(** The exceptions the modelled code can raise: the application's own
    [UnframeError] and the built-in ones. *)
Inductive exn : Type :=
| UnframeError (msg : unframe_msg)
| IndexError
| OverflowError
| ZeroDivisionError
| OSError
| ValueError
| MemoryError
| Exception.

Inductive result (A : Type) : Type :=
| Ok (a : A)
| Raise (e : exn).

Arguments Ok {A} a.
Arguments Raise {A} e.

Definition bind {A B : Type} (r : result A) (k : A -> result B) : result B :=
  match r with
  | Ok a => k a
  | Raise e => Raise e
  end.

Notation "x <- r ;; k" := (bind r (fun x => k))
  (at level 61, r at next level, right associativity).

(** ** Bytes and Python's built-in operations on them *)

Definition bytes : Type := list byte.

Definition byte_val (b : byte) : Z := Z.of_N (Byte.to_N b).

(** The byte with value [z mod 256]. *)
Definition byte_of_Z (z : Z) : byte :=
  match Byte.of_N (Z.to_N (z mod 256)) with
  | Some b => b
  | None => x00
  end.

(** [bindata[i]] for a non-negative constant [i]. *)
Definition index (bindata : bytes) (i : nat) : result byte :=
  match nth_error bindata i with
  | Some b => Ok b
  | None => Raise IndexError
  end.

(** How a slice bound is clamped: a negative bound counts from the end. *)
Definition slice_index (len i : Z) : Z :=
  if i <? 0 then Z.max 0 (len + i) else Z.min i len.

(** [l[start:stop]]; an omitted bound is [None]. *)
Definition slice {A : Type} (l : list A) (start stop : option Z) : list A :=
  let len := Z.of_nat (length l) in
  let lo := match start with Some i => slice_index len i | None => 0 end in
  let hi := match stop with Some j => slice_index len j | None => len end in
  firstn (Z.to_nat (hi - lo)) (skipn (Z.to_nat lo) l).

(** [int.from_bytes(bs, 'big')]. *)
Definition from_bytes (bs : bytes) : Z :=
  fold_left (fun acc b => acc * 256 + byte_val b) bs 0.

(** The [len] low-order base-256 digits of [n], most significant first. *)
Fixpoint to_bytes_be (len : nat) (n : Z) : bytes :=
  match len with
  | O => []
  | S k => to_bytes_be k (n / 256) ++ [byte_of_Z (n mod 256)]
  end.

(** [n.to_bytes(len, 'big')]: raises [OverflowError] on a negative [n] and
    on one that does not fit in [len] bytes. *)
Definition to_bytes (n : Z) (len : nat) : result bytes :=
  if n <? 0 then Raise OverflowError
  else if 256 ^ Z.of_nat len <=? n then Raise OverflowError
  else Ok (to_bytes_be len n).

(** ** [binascii.crc32]

    The standard library's CRC-32 (reflected polynomial [0xEDB88320],
    initial value and final xor [0xFFFFFFFF]), in its bit-by-bit form. The
    second argument is the running checksum to continue from. *)

Definition crc_poly : Z := 0xEDB88320.
Definition crc_mask : Z := 0xFFFFFFFF.

Definition crc_shift (c : Z) : Z :=
  if Z.testbit c 0 then Z.lxor (Z.shiftr c 1) crc_poly else Z.shiftr c 1.

Definition crc_byte (c : Z) (b : byte) : Z :=
  Nat.iter 8 crc_shift (Z.lxor c (byte_val b)).

Definition crc_update (c : Z) (data : bytes) : Z := fold_left crc_byte data c.

Definition crc32 (data : bytes) (value : Z) : Z :=
  Z.lxor (crc_update (Z.lxor (Z.land value crc_mask) crc_mask) data) crc_mask.

(** ** The frame codec *)

(** The closure [v1] returned by [frame_data_func]. Its second argument is
    the QR count handed over by [run_backup]; the body never reads it. *)
Definition v1 (bindata : bytes) (qrnumber : Q) (sizesofar : Z) : result bytes :=
  offset_bytes <- to_bytes sizesofar 4 ;;
  let header := [xb1] ++ offset_bytes in
  let crcheader := crc32 header 0 in
  footer <- to_bytes (crc32 bindata crcheader) 4 ;;
  Ok (header ++ bindata ++ footer).

Definition frame_data_func : bytes -> Q -> Z -> result bytes := v1.

Definition unframe_data (bindata : bytes) : result (bytes * Z) :=
  b0 <- index bindata 0 ;;
  if negb (Z.land (byte_val b0) 0xb0 =? 0xb0) then
    Raise (UnframeError NoMagic)
  else
    let version := Z.land (byte_val b0) 0xf in
    if version =? 1 then
      let position := from_bytes (slice bindata (Some 1) (Some 5)) in
      let crcframe := from_bytes (slice bindata (Some (-4)) None) in
      let crccalc := crc32 (slice bindata (Some 0) (Some (-4))) 0 in
      if negb (crccalc =? crcframe) then
        Raise (UnframeError CrcMismatch)
      else
        Ok (slice bindata (Some 5) (Some (-4)), position)
    else
      Raise (UnframeError (BadVersion version)).

(** ** Files *)

(** The output file of [run_restore]: what it holds and the position of
    the next write. *)
Record file : Type := mkfile { content : bytes; pos : nat }.

(** [open(name, "wb")]: the file starts empty. *)
Definition open_wb : file := mkfile [] 0.

(** [outfile.seek(position)]; a negative position is refused by the
    operating system. *)
Definition seek (outfile : file) (position : Z) : result file :=
  if position <? 0 then Raise OSError
  else Ok (mkfile (content outfile) (Z.to_nat position)).

(** [outfile.write(bindata)]: the bytes replace what the file holds from
    the current position on; a gap between the end of the file and the
    position reads as zero bytes. Writing nothing leaves the file as it
    is. *)
Definition write (outfile : file) (bindata : bytes) : file :=
  match bindata with
  | [] => outfile
  | _ =>
    let p := pos outfile in
    let old := content outfile in
    let padded := old ++ repeat x00 (p - length old) in
    mkfile (firstn p padded ++ bindata ++ skipn (p + length bindata) padded)
           (p + length bindata)
  end.

(** [infile.read(n)] on the bytes not yet consumed: the bytes read and the
    bytes that remain. A negative [n] reads to the end. This is a read
    that is served; the sizes the interpreter refuses are in [Full.read]
    below. *)
Definition read (infile : bytes) (n : Z) : bytes * bytes :=
  if n <? 0 then (infile, [])
  else (firstn (Z.to_nat n) infile, skipn (Z.to_nat n) infile).

(** ** Numbers in [run_backup] *)

(** [a / b] on two ints: true division. The quotient is kept exact here;
    the interpreter rounds it to the nearest double. *)
Definition true_div (a b : Z) : result Q :=
  if b =? 0 then Raise ZeroDivisionError
  else Ok (inject_Z a / inject_Z b)%Q.

(** What ['%d' % q] prints: [q] truncated towards zero. *)
Definition format_d (q : Q) : Z :=
  if Qle_bool 0 q then Qfloor q else Qceiling q.

(** ** [run_backup] *)

Section Backup.

(** The frame type and the type of what the exporter receives are left
    open: [run_backup] itself uses [bytes] frames and base-85 text. *)
Variables Frame Code : Type.
Variable framedata : bytes -> Q -> Z -> result Frame.
Variable encodefunc : Frame -> Code.
Variable chunksize : Z.
Variable qr_count : Q.

(** The [while True] loop. It returns the codes handed to the exporter
    and how the loop ended; [None] only when [fuel] runs out. The creation
    of the QR code and the exporter, which can end the loop as well, are
    in [Full.backup_loop] below. *)
Fixpoint backup_loop (fuel : nat) (infile : bytes) (sizesofar : Z)
  : option (list Code * result unit) :=
  match fuel with
  | O => None
  | S fuel' =>
    let (bindata, infile') := read infile chunksize in
    match bindata with
    | [] => Some ([], Ok tt)
    | _ :: _ =>
      match framedata bindata qr_count sizesofar with
      | Raise e => Some ([], Raise e)
      | Ok frame =>
        match backup_loop fuel' infile'
                (sizesofar + Z.of_nat (length bindata)) with
        | None => None
        | Some (codes, r) => Some (encodefunc frame :: codes, r)
        end
      end
    end
  end.

End Backup.

Arguments backup_loop {Frame Code} framedata encodefunc chunksize qr_count
  fuel infile sizesofar.

(** What a run of [run_backup] leaves behind: the QR count it logged (if
    it got that far), the codes exported, and whether it raised. *)
Record backup_run (Code : Type) : Type := mkrun {
  logged_qr_count : option Z;
  exported : list Code;
  outcome : result unit
}.

Arguments mkrun {Code} _ _ _.
Arguments logged_qr_count {Code} _.
Arguments exported {Code} _.
Arguments outcome {Code} _.

Section RunBackup.

Variables Frame Code : Type.
Variable framedata : bytes -> Q -> Z -> result Frame.
Variable encodefunc : Frame -> Code.

Definition run_backup_with (chunksize : Z) (infile : bytes)
  : option (backup_run Code) :=
  let infile_size := Z.of_nat (length infile) in
  match true_div infile_size chunksize with
  | Raise e => Some (mkrun None [] (Raise e))
  | Ok q =>
    let qr_count := (q + 1)%Q in
    match backup_loop framedata encodefunc chunksize qr_count
            (S (length infile)) infile 0 with
    | None => None
    | Some (codes, r) => Some (mkrun (Some (format_d qr_count)) codes r)
    end
  end.

End RunBackup.

Arguments run_backup_with {Frame Code} framedata encodefunc chunksize infile.

(** [run_backup] proper frames with [frame_data_func]. *)
Definition run_backup {Code : Type} (encodefunc : bytes -> Code)
  : Z -> bytes -> option (backup_run Code) :=
  run_backup_with frame_data_func encodefunc.

(** The chunk stream: the [(bindata, sizesofar)] pairs the loop passes to
    [framedata], obtained by running the loop with a framing function that
    records its arguments. *)
Definition record_chunk (bindata : bytes) (qrnumber : Q) (sizesofar : Z)
  : result (bytes * Z) :=
  Ok (bindata, sizesofar).

Definition chunk_stream (chunksize : Z) (infile : bytes) : list (bytes * Z) :=
  match backup_loop record_chunk (fun chunk => chunk) chunksize 0%Q
          (S (length infile)) infile 0 with
  | Some (chunks, _) => chunks
  | None => []
  end.

(** ** [run_restore] *)

(** Lines 165-166: seek to the frame's position and write its payload. *)
Definition place (outfile : file) (frame : bytes * Z) : result file :=
  let (bindata, position) := frame in
  f <- seek outfile position ;;
  Ok (write f bindata).

(** Decoded frames applied one after the other. *)
Fixpoint place_all (frames : list (bytes * Z)) (outfile : file) : result file :=
  match frames with
  | [] => Ok outfile
  | frame :: rest => f <- place outfile frame ;; place_all rest f
  end.

Section Restore.

Variables Image Code : Type.
Variable scan_codes : Image -> list Code.
Variable decodefunc : Code -> result bytes.

(** The inner [for encdata in encdatalist] loop. The file is returned in
    both cases: an exception leaves on disk what was written before. *)
Fixpoint restore_codes (encdatalist : list Code) (outfile : file)
  : file * result unit :=
  match encdatalist with
  | [] => (outfile, Ok tt)
  | encdata :: rest =>
    match (frame <- decodefunc encdata ;;
           decoded <- unframe_data frame ;;
           place outfile decoded) with
    | Raise e => (outfile, Raise e)
    | Ok outfile' => restore_codes rest outfile'
    end
  end.

(** The outer [for image in importer] loop. *)
Fixpoint restore_images (importer : list Image) (outfile : file)
  : file * result unit :=
  match importer with
  | [] => (outfile, Ok tt)
  | image :: rest =>
    match restore_codes (scan_codes image) outfile with
    | (outfile', Ok _) => restore_images rest outfile'
    | (outfile', Raise e) => (outfile', Raise e)
    end
  end.

Definition run_restore (importer : list Image) : bytes * result unit :=
  let (outfile, r) := restore_images importer open_wb in
  (content outfile, r).

End Restore.

Arguments restore_codes {Code} decodefunc encdatalist outfile.
Arguments restore_images {Image Code} scan_codes decodefunc importer outfile.
Arguments run_restore {Image Code} scan_codes decodefunc importer.

(** ** Single-bit corruption *)

(** Bit [k] of a byte inverted. *)
Definition flip_bit (k : nat) (b : byte) : byte :=
  byte_of_Z (Z.lxor (byte_val b) (2 ^ Z.of_nat k)).

(** Bit [k] of the byte at index [i] inverted. *)
Fixpoint flip_at (i k : nat) (l : bytes) : bytes :=
  match l, i with
  | [], _ => []
  | b :: t, O => flip_bit k b :: t
  | b :: t, S j => b :: flip_at j k t
  end.

(** ** Notions used in the statements *)

(** The range of an unsigned 32-bit integer. *)
Definition u32 (z : Z) : Prop := 0 <= z < 2 ^ 32.

(** The bytes of a version-1 frame: what [v1] returns when it returns. *)
Definition frame_of (bindata : bytes) (sizesofar : Z) : bytes :=
  let header := [xb1] ++ to_bytes_be 4 sizesofar in
  header ++ bindata ++ to_bytes_be 4 (crc32 (header ++ bindata) 0).

(** [frame] carries bytes of [data]: its payload is what [data] holds at
    its offset. *)
Definition slice_of (data : bytes) (frame : bytes * Z) : Prop :=
  exists k : nat,
    snd frame = Z.of_nat k /\
    (k + length (fst frame) <= length data)%nat /\
    firstn (length (fst frame)) (skipn k data) = fst frame.

(** Byte [i] of the file lies in the range one of [frames] writes. *)
Definition covered (frames : list (bytes * Z)) (i : nat) : Prop :=
  exists frame, In frame frames /\
    snd frame <= Z.of_nat i < snd frame + Z.of_nat (length (fst frame)).

(** The file holds nothing beyond the length of [data], and holds the
    bytes of [data] wherever one of [frames] has written. *)
Definition agrees (data : bytes) (outfile : file) (frames : list (bytes * Z))
  : Prop :=
  (length (content outfile) <= length data)%nat /\
  forall i, covered frames i ->
            nth_error (content outfile) i = nth_error data i.

(** The high nibble of a byte. *)
Definition high_nibble (b : byte) : Z := Z.shiftr (byte_val b) 4.

(** The low nibble of a byte. *)
Definition low_nibble (b : byte) : Z := byte_val b mod 16.

(** [ceil(total_size / C)], at least 1. *)
Definition expected_chunk_count (total_size chunksize : Z) : Z :=
  Z.max 1 (Qceiling (inject_Z total_size / inject_Z chunksize)).

(** ** [run_backup] with every step that can raise

    [backup_loop] above is the loop on the path where every read is served
    and every code is exported: it gives the split of the file into chunks
    and their frames. The module below has the run as lines 102-140 have
    it, with the steps that can end it early:
    - [infile.read] refuses sizes that are not index-sized, sizes below
      -1 and sizes it cannot allocate a buffer for;
    - [pyqrcode.create] refuses a text that does not fit in a QR code;
    - the exporter classes are not part of this file: their constructors
      and methods are parameters, and each of them may raise. *)

Module Full.

(** [infile.read(n)] on the file opened with ["rb"]: [n] is converted to
    an index-sized integer first, [-1] reads to the end, and the [n] bytes
    are allocated before any is read. [alloc_limit] is the largest size
    for which that allocation succeeds where the program runs. *)
Definition read (alloc_limit : Z) (infile : bytes) (n : Z)
  : result (bytes * bytes) :=
  if (n <? - 2 ^ 63) || (2 ^ 63 <=? n) then Raise OverflowError
  else if n <? -1 then Raise ValueError
  else if n =? -1 then Ok (infile, [])
  else if alloc_limit <? n then Raise MemoryError
  else Ok (firstn (Z.to_nat n) infile, skipn (Z.to_nat n) infile).

(** What a run leaves behind: the QR total it logged, the exporter as the
    last call that returned left it (if one was set up), and how the run
    ended. *)
Record run (Exporter : Type) : Type := mk_run {
  qr_total : option Z;
  exporter_left : option Exporter;
  ended : result unit
}.

Arguments mk_run {Exporter} _ _ _.
Arguments qr_total {Exporter} _.
Arguments exporter_left {Exporter} _.
Arguments ended {Exporter} _.

Section Run.

(** [Code] is the text [base64.b85encode(frame).decode()] returns, [QR]
    what [pyqrcode.create] returns, [Exporter] the state of an exporter
    object. *)
Variables Code QR Exporter : Type.
Variable alloc_limit : Z.
Variable encodefunc : bytes -> Code.
Variable create : Code -> result QR.
Variable PngDirExporter : result Exporter.
Variable PDFExporter : Q -> result Exporter.
Variable add_qr : Exporter -> QR -> result Exporter.
Variable finish : Exporter -> bytes -> result Exporter.

(** [setup_exporter]: [exporter] is [args.exporter]. *)
Definition setup_exporter (exporter : String.string) (qr_count : Q)
  : result Exporter :=
  if String.eqb exporter "pngdir"%string then PngDirExporter
  else if String.eqb exporter "pdf"%string then PDFExporter qr_count
  else Raise Exception.

(** Lines 133-135 for one frame. *)
Definition export (exporter : Exporter) (frame : bytes) : result Exporter :=
  qr <- create (encodefunc frame) ;;
  add_qr exporter qr.

(** The [while True] loop. [inputhash] is the sequence of bytes passed to
    [inputhash.update] so far. The loop returns the exporter, the bytes
    hashed and how it ended; [None] only when [fuel] runs out. *)
Fixpoint backup_loop (chunksize : Z) (qr_count : Q) (fuel : nat)
  (infile : bytes) (sizesofar : Z) (exporter : Exporter) (inputhash : bytes)
  : option (Exporter * bytes * result unit) :=
  match fuel with
  | O => None
  | S fuel' =>
    match read alloc_limit infile chunksize with
    | Raise e => Some (exporter, inputhash, Raise e)
    | Ok (bindata, infile') =>
      match bindata with
      | [] => Some (exporter, inputhash, Ok tt)
      | _ :: _ =>
        match frame_data_func bindata qr_count sizesofar with
        | Raise e => Some (exporter, inputhash, Raise e)
        | Ok frame =>
          let inputhash' := inputhash ++ bindata in
          match export exporter frame with
          | Raise e => Some (exporter, inputhash', Raise e)
          | Ok exporter' =>
            backup_loop chunksize qr_count fuel' infile'
              (sizesofar + Z.of_nat (length bindata)) exporter' inputhash'
          end
        end
      end
    end
  end.

(** [run_backup]: [chunksize] is [args.chunksize], [exporter] is
    [args.exporter], [infile] the content of the input file. *)
Definition run_backup (chunksize : Z) (exporter : String.string)
  (infile : bytes) : option (run Exporter) :=
  let infile_size := Z.of_nat (length infile) in
  match true_div infile_size chunksize with
  | Raise e => Some (mk_run None None (Raise e))
  | Ok q =>
    let qr_count := (q + 1)%Q in
    let logged := Some (format_d qr_count) in
    match setup_exporter exporter qr_count with
    | Raise e => Some (mk_run logged None (Raise e))
    | Ok exporter0 =>
      match backup_loop chunksize qr_count (S (length infile)) infile 0
              exporter0 [] with
      | None => None
      | Some (exporter1, inputhash, Raise e) =>
          Some (mk_run logged (Some exporter1) (Raise e))
      | Some (exporter1, inputhash, Ok _) =>
          match finish exporter1 inputhash with
          | Raise e => Some (mk_run logged (Some exporter1) (Raise e))
          | Ok exporter2 => Some (mk_run logged (Some exporter2) (Ok tt))
          end
      end
    end
  end.

(** The frames of [chunks] exported one after the other. *)
Fixpoint export_all (exporter : Exporter) (chunks : list (bytes * Z))
  : result Exporter :=
  match chunks with
  | [] => Ok exporter
  | chunk :: rest =>
    exporter' <- export exporter (frame_of (fst chunk) (snd chunk)) ;;
    export_all exporter' rest
  end.

End Run.

Arguments setup_exporter {Exporter} PngDirExporter PDFExporter exporter qr_count.
Arguments export {Code QR Exporter} encodefunc create add_qr exporter frame.
Arguments backup_loop {Code QR Exporter} alloc_limit encodefunc create add_qr
  chunksize qr_count fuel infile sizesofar exporter inputhash.
Arguments run_backup {Code QR Exporter} alloc_limit encodefunc create
  PngDirExporter PDFExporter add_qr finish chunksize exporter infile.
Arguments export_all {Code QR Exporter} encodefunc create add_qr exporter chunks.

End Full.

(** ** An exporter to run the model on

    An exporter that keeps the QR codes it is given, and a QR creation
    that takes a text of at most [capacity] bytes and raises [ValueError]
    on a longer one, as [pyqrcode.create] does on a text beyond what a QR
    code holds. *)

Definition keep_add_qr (exporter : list bytes) (qr : bytes) : result (list bytes) :=
  Ok (exporter ++ [qr]).

Definition keep_finish (exporter : list bytes) (inputhash : bytes)
  : result (list bytes) :=
  Ok exporter.

Definition create_upto (capacity : nat) (text : bytes) : result bytes :=
  if (length text <=? capacity)%nat then Ok text else Raise ValueError.

(** [Full.run_backup] with that exporter, text encoding left out. *)
Definition run_backup_keep (alloc_limit : Z) (capacity : nat)
  : Z -> string -> bytes -> option (Full.run (list bytes)) :=
  Full.run_backup alloc_limit (fun frame : bytes => frame) (create_upto capacity)
    (Ok []) (fun _ => Ok []) keep_add_qr keep_finish.

(** * Properties *)

(** ** Bytes *)

Lemma byte_val_range (b : byte) : 0 <= byte_val b < 256.
Proof.
  unfold byte_val. pose proof (Byte.to_N_bounded b) as H. lia.
Qed.

Lemma byte_val_of_Z (z : Z) : byte_val (byte_of_Z z) = z mod 256.
Proof.
  unfold byte_of_Z, byte_val.
  pose proof (Z.mod_pos_bound z 256 ltac:(lia)) as Hz.
  destruct (Byte.of_N (Z.to_N (z mod 256))) as [b|] eqn:E.
  - apply Byte.to_of_N in E. rewrite E. lia.
  - apply Byte.of_N_None_iff in E. lia.
Qed.

Lemma byte_of_Z_val (b : byte) : byte_of_Z (byte_val b) = b.
Proof.
  unfold byte_of_Z.
  rewrite Z.mod_small by apply byte_val_range.
  unfold byte_val. rewrite N2Z.id, Byte.of_to_N. reflexivity.
Qed.

(** ** [int.from_bytes] and [int.to_bytes] *)

Lemma from_bytes_acc (bs : bytes) (acc : Z) :
  fold_left (fun acc b => acc * 256 + byte_val b) bs acc
  = acc * 256 ^ Z.of_nat (length bs) + from_bytes bs.
Proof.
  unfold from_bytes. revert acc.
  induction bs as [|b bs IH]; intros acc.
  - simpl. lia.
  - cbn [fold_left length]. rewrite IH, (IH (0 * 256 + byte_val b)).
    rewrite Nat2Z.inj_succ, Z.pow_succ_r by lia. ring.
Qed.

Lemma from_bytes_app (a b : bytes) :
  from_bytes (a ++ b) = from_bytes a * 256 ^ Z.of_nat (length b) + from_bytes b.
Proof.
  unfold from_bytes at 1. rewrite fold_left_app.
  fold (from_bytes a). apply from_bytes_acc.
Qed.

Lemma from_bytes_range (bs : bytes) :
  0 <= from_bytes bs < 256 ^ Z.of_nat (length bs).
Proof.
  induction bs as [|b bs IH] using rev_ind.
  - cbn. lia.
  - rewrite from_bytes_app, length_app. cbn [length].
    replace (from_bytes [b]) with (byte_val b) by (cbn; lia).
    pose proof (byte_val_range b).
    rewrite Nat2Z.inj_add, Z.pow_add_r by lia.
    change (256 ^ Z.of_nat 1) with 256. nia.
Qed.

Lemma length_to_bytes_be (len : nat) (n : Z) : length (to_bytes_be len n) = len.
Proof.
  revert n. induction len as [|k IH]; intros n; cbn [to_bytes_be].
  - reflexivity.
  - rewrite length_app, IH. cbn. lia.
Qed.

Lemma from_to_bytes_be (len : nat) (n : Z) :
  from_bytes (to_bytes_be len n) = n mod 256 ^ Z.of_nat len.
Proof.
  revert n. induction len as [|k IH]; intros n; cbn [to_bytes_be].
  - cbn. rewrite Z.mod_1_r. reflexivity.
  - rewrite from_bytes_app, IH. cbn [length].
    replace (from_bytes [byte_of_Z (n mod 256)]) with (n mod 256)
      by (cbn; rewrite byte_val_of_Z, Z.mod_mod; lia).
    change (256 ^ Z.of_nat 1) with 256.
    rewrite Nat2Z.inj_succ, Z.pow_succ_r by lia.
    rewrite Z.rem_mul_r by lia. lia.
Qed.

Lemma to_bytes_in_range (n : Z) (len : nat) :
  0 <= n < 256 ^ Z.of_nat len -> to_bytes n len = Ok (to_bytes_be len n).
Proof.
  intros H. unfold to_bytes.
  destruct (Z.ltb_spec n 0); [lia|].
  destruct (Z.leb_spec (256 ^ Z.of_nat len) n); [lia|]. reflexivity.
Qed.

Lemma to_bytes_out_of_range (n : Z) (len : nat) :
  n < 0 \/ 256 ^ Z.of_nat len <= n -> to_bytes n len = Raise OverflowError.
Proof.
  intros H. unfold to_bytes.
  destruct (Z.ltb_spec n 0); [reflexivity|].
  destruct (Z.leb_spec (256 ^ Z.of_nat len) n); [reflexivity|lia].
Qed.

Lemma from_to_bytes_be_small (len : nat) (n : Z) :
  0 <= n < 256 ^ Z.of_nat len -> from_bytes (to_bytes_be len n) = n.
Proof.
  intros H. rewrite from_to_bytes_be. apply Z.mod_small, H.
Qed.

(** ** CRC-32: range and chaining *)

Lemma u32_iff_mod (z : Z) : u32 z <-> z mod 2 ^ 32 = z.
Proof.
  unfold u32. split; intros H.
  - apply Z.mod_small, H.
  - rewrite <- H. apply Z.mod_pos_bound. lia.
Qed.

Lemma lxor_u32 (a b : Z) : u32 a -> u32 b -> u32 (Z.lxor a b).
Proof.
  rewrite !u32_iff_mod. intros Ha Hb.
  apply Z.bits_inj'. intros n Hn.
  destruct (Z.ltb_spec n 32) as [Hlt|Hge].
  - apply Z.mod_pow2_bits_low. lia.
  - rewrite Z.mod_pow2_bits_high by lia.
    rewrite Z.lxor_spec, <- Ha, <- Hb.
    rewrite !Z.mod_pow2_bits_high by lia. reflexivity.
Qed.

Lemma shiftr1_u32 (c : Z) : u32 c -> 0 <= Z.shiftr c 1 < 2 ^ 31.
Proof.
  unfold u32. intros H. rewrite Z.shiftr_div_pow2 by lia.
  change (2 ^ 1) with 2. change (2 ^ 32) with (2 * 2 ^ 31) in H.
  split; [apply Z.div_pos; lia | apply Z.div_lt_upper_bound; lia].
Qed.

Lemma crc_poly_u32 : u32 crc_poly.
Proof. unfold u32, crc_poly. lia. Qed.

Lemma crc_mask_u32 : u32 crc_mask.
Proof. unfold u32, crc_mask. lia. Qed.

Lemma crc_shift_u32 (c : Z) : u32 c -> u32 (crc_shift c).
Proof.
  intros H. pose proof (shiftr1_u32 c H) as Hs.
  assert (u32 (Z.shiftr c 1)) by (unfold u32; lia).
  unfold crc_shift. destruct (Z.testbit c 0); [|assumption].
  apply lxor_u32; [assumption | apply crc_poly_u32].
Qed.

Lemma iter_crc_shift_u32 (n : nat) (c : Z) : u32 c -> u32 (Nat.iter n crc_shift c).
Proof.
  intros H. induction n as [|n IH]; [assumption|].
  rewrite Nat.iter_succ. apply crc_shift_u32, IH.
Qed.

Lemma byte_val_u32 (b : byte) : u32 (byte_val b).
Proof. pose proof (byte_val_range b). unfold u32. lia. Qed.

Lemma crc_byte_u32 (c : Z) (b : byte) : u32 c -> u32 (crc_byte c b).
Proof.
  intros H. unfold crc_byte.
  apply iter_crc_shift_u32, lxor_u32; [assumption | apply byte_val_u32].
Qed.

Lemma crc_update_u32 (data : bytes) (c : Z) : u32 c -> u32 (crc_update c data).
Proof.
  unfold crc_update. revert c.
  induction data as [|b data IH]; intros c H; cbn [fold_left]; [assumption|].
  apply IH, crc_byte_u32, H.
Qed.

Lemma land_mask_u32 (v : Z) : u32 (Z.land v crc_mask).
Proof.
  change crc_mask with (Z.ones 32). rewrite Z.land_ones by lia.
  apply Z.mod_pos_bound. lia.
Qed.

Lemma land_mask_id (v : Z) : u32 v -> Z.land v crc_mask = v.
Proof.
  intros H. change crc_mask with (Z.ones 32). rewrite Z.land_ones by lia.
  apply Z.mod_small, H.
Qed.

Lemma crc32_u32 (data : bytes) (value : Z) : u32 (crc32 data value).
Proof.
  unfold crc32.
  apply lxor_u32; [|apply crc_mask_u32].
  apply crc_update_u32, lxor_u32; [apply land_mask_u32 | apply crc_mask_u32].
Qed.

Lemma lxor_cancel_r (a m : Z) : Z.lxor (Z.lxor a m) m = a.
Proof. rewrite Z.lxor_assoc, Z.lxor_nilpotent, Z.lxor_0_r. reflexivity. Qed.

Lemma crc_update_app (a b : bytes) (c : Z) :
  crc_update c (a ++ b) = crc_update (crc_update c a) b.
Proof. unfold crc_update. apply fold_left_app. Qed.

Lemma crc32_chain (a b : bytes) (value : Z) :
  crc32 (a ++ b) value = crc32 b (crc32 a value).
Proof.
  unfold crc32 at 2.
  rewrite land_mask_id by apply crc32_u32.
  unfold crc32. rewrite lxor_cancel_r, crc_update_app. reflexivity.
Qed.

(** ** CRC-32: a single inverted bit always changes the checksum *)

Lemma crc_shift_lxor (a b : Z) :
  crc_shift (Z.lxor a b) = Z.lxor (crc_shift a) (crc_shift b).
Proof.
  unfold crc_shift. rewrite Z.lxor_spec, Z.shiftr_lxor.
  set (x := Z.shiftr a 1). set (y := Z.shiftr b 1).
  destruct (Z.testbit a 0), (Z.testbit b 0); cbn [xorb].
  - rewrite (Z.lxor_comm y), <- Z.lxor_assoc, lxor_cancel_r. reflexivity.
  - rewrite !Z.lxor_assoc, (Z.lxor_comm y). reflexivity.
  - rewrite Z.lxor_assoc. reflexivity.
  - reflexivity.
Qed.

Lemma iter_crc_shift_lxor (n : nat) (a b : Z) :
  Nat.iter n crc_shift (Z.lxor a b)
  = Z.lxor (Nat.iter n crc_shift a) (Nat.iter n crc_shift b).
Proof.
  induction n as [|n IH]; [reflexivity|].
  rewrite !Nat.iter_succ, IH. apply crc_shift_lxor.
Qed.

Lemma crc_shift_nonzero (d : Z) : u32 d -> d <> 0 -> crc_shift d <> 0.
Proof.
  intros Hd Hnz. pose proof (shiftr1_u32 d Hd) as Hs.
  unfold crc_shift. destruct (Z.testbit d 0) eqn:E.
  - intros H. apply Z.lxor_eq in H. unfold crc_poly in H. lia.
  - intros H. rewrite Z.bit0_odd in E.
    rewrite Z.shiftr_div_pow2 in H by lia. change (2 ^ 1) with 2 in H.
    pose proof (Z.div_mod d 2 ltac:(lia)) as Hdm.
    rewrite Zodd_mod in E. destruct (Z.eqb_spec (d mod 2) 1); [discriminate|].
    pose proof (Z.mod_pos_bound d 2 ltac:(lia)). lia.
Qed.

Lemma iter_crc_shift_nonzero (n : nat) (d : Z) :
  u32 d -> d <> 0 -> Nat.iter n crc_shift d <> 0.
Proof.
  intros Hd Hnz. induction n as [|n IH]; [assumption|].
  rewrite Nat.iter_succ. apply crc_shift_nonzero; [apply iter_crc_shift_u32, Hd | exact IH].
Qed.

(** Two running checksums that differ by [d] differ, after the same
    [data], by [d] pushed through [8 * length data] shifts. *)
Lemma crc_update_lxor (data : bytes) (c d : Z) :
  crc_update (Z.lxor c d) data
  = Z.lxor (crc_update c data) (Nat.iter (8 * length data) crc_shift d).
Proof.
  unfold crc_update. revert c d.
  induction data as [|b data IH]; intros c d; cbn [fold_left length].
  - reflexivity.
  - replace (crc_byte (Z.lxor c d) b)
      with (Z.lxor (crc_byte c b) (Nat.iter 8 crc_shift d)).
    + rewrite IH. f_equal.
      replace (8 * S (length data))%nat with (8 * length data + 8)%nat by lia.
      rewrite Nat.iter_add. reflexivity.
    + unfold crc_byte. rewrite <- iter_crc_shift_lxor. f_equal.
      rewrite !Z.lxor_assoc. f_equal. apply Z.lxor_comm.
Qed.

Lemma lxor_nonzero_neq (a d : Z) : d <> 0 -> Z.lxor a d <> a.
Proof.
  intros Hd H. apply Hd.
  assert (Z.lxor a (Z.lxor a d) = d) as E
    by (rewrite <- Z.lxor_assoc, Z.lxor_nilpotent; apply Z.lxor_0_l).
  rewrite H, Z.lxor_nilpotent in E. symmetry. exact E.
Qed.

Lemma lxor_byte_range (a b : Z) :
  0 <= a < 256 -> 0 <= b < 256 -> 0 <= Z.lxor a b < 256.
Proof.
  intros Ha Hb.
  assert (Z.lxor a b mod 2 ^ 8 = Z.lxor a b) as E.
  { apply Z.bits_inj'. intros n Hn.
    destruct (Z.ltb_spec n 8) as [Hlt|Hge].
    - apply Z.mod_pow2_bits_low. lia.
    - rewrite Z.mod_pow2_bits_high by lia.
      rewrite Z.lxor_spec.
      rewrite <- (Z.mod_small a (2 ^ 8)), <- (Z.mod_small b (2 ^ 8))
        by (change (2 ^ 8) with 256; lia).
      rewrite !Z.mod_pow2_bits_high by lia. reflexivity. }
  rewrite <- E. change 256 with (2 ^ 8). apply Z.mod_pos_bound. lia.
Qed.

Lemma pow2_bit_range (k : nat) : (k < 8)%nat -> 0 < 2 ^ Z.of_nat k < 256.
Proof.
  intros H. split; [apply Z.pow_pos_nonneg; lia|].
  change 256 with (2 ^ 8). apply Z.pow_lt_mono_r; lia.
Qed.

Lemma byte_val_flip_bit (k : nat) (b : byte) :
  (k < 8)%nat -> byte_val (flip_bit k b) = Z.lxor (byte_val b) (2 ^ Z.of_nat k).
Proof.
  intros H. unfold flip_bit. rewrite byte_val_of_Z.
  apply Z.mod_small, lxor_byte_range; [apply byte_val_range|].
  pose proof (pow2_bit_range k H). lia.
Qed.

Lemma length_flip_at (i k : nat) (l : bytes) : length (flip_at i k l) = length l.
Proof.
  revert i. induction l as [|b t IH]; intros [|j]; cbn [flip_at length];
    try reflexivity.
  rewrite IH. reflexivity.
Qed.

(** The running checksum of a message with one bit inverted differs from
    that of the message by a non-zero word that does not depend on the
    starting value. *)
Lemma crc_update_flip (data : bytes) (i k : nat) :
  (i < length data)%nat -> (k < 8)%nat ->
  exists d, d <> 0 /\
    forall c, crc_update c (flip_at i k data) = Z.lxor (crc_update c data) d.
Proof.
  revert i. induction data as [|b t IH]; intros i Hi Hk; cbn [length] in Hi.
  - lia.
  - destruct i as [|j]; cbn [flip_at].
    + pose proof (pow2_bit_range k Hk) as Hp.
      exists (Nat.iter (8 * length t) crc_shift
                (Nat.iter 8 crc_shift (2 ^ Z.of_nat k))).
      split.
      * apply iter_crc_shift_nonzero.
        -- apply iter_crc_shift_u32. unfold u32. lia.
        -- apply iter_crc_shift_nonzero; [unfold u32|]; lia.
      * intros c. unfold crc_update at 1 2. cbn [fold_left].
        fold (crc_update (crc_byte c (flip_bit k b)) t).
        fold (crc_update (crc_byte c b) t).
        rewrite <- crc_update_lxor. f_equal.
        unfold crc_byte. rewrite byte_val_flip_bit by assumption.
        rewrite <- iter_crc_shift_lxor, Z.lxor_assoc. reflexivity.
    + destruct (IH j ltac:(lia) Hk) as [d [Hd Hc]].
      exists d. split; [assumption|].
      intros c. unfold crc_update at 1 2. cbn [fold_left]. apply Hc.
Qed.

Lemma crc32_flip (data : bytes) (i k : nat) (value : Z) :
  (i < length data)%nat -> (k < 8)%nat ->
  crc32 (flip_at i k data) value <> crc32 data value.
Proof.
  intros Hi Hk. destruct (crc_update_flip data i k Hi Hk) as [d [Hd Hc]].
  unfold crc32. rewrite Hc. intros H.
  apply (f_equal (fun z => Z.lxor z crc_mask)) in H.
  rewrite !lxor_cancel_r in H.
  exact (lxor_nonzero_neq _ _ Hd H).
Qed.

(** ** Slices of a frame *)

Lemma slice_body {A : Type} (m t : list A) :
  length t = 4%nat -> slice (m ++ t) (Some 0) (Some (-4)) = m.
Proof.
  intros Ht. unfold slice, slice_index. rewrite length_app, Ht.
  cbn [Z.ltb Z.compare]. cbv zeta.
  replace (Z.to_nat (Z.min 0 (Z.of_nat (length m + 4)))) with 0%nat by lia.
  replace (Z.to_nat (Z.max 0 (Z.of_nat (length m + 4) + -4)
                     - Z.min 0 (Z.of_nat (length m + 4))))
    with (length m) by lia.
  cbn [skipn]. rewrite firstn_app, firstn_all, Nat.sub_diag.
  cbn [firstn]. apply app_nil_r.
Qed.

Lemma slice_trailer {A : Type} (m t : list A) :
  length t = 4%nat -> slice (m ++ t) (Some (-4)) None = t.
Proof.
  intros Ht. unfold slice, slice_index. rewrite length_app, Ht.
  cbn [Z.ltb Z.compare]. cbv zeta.
  replace (Z.to_nat (Z.max 0 (Z.of_nat (length m + 4) + -4)))
    with (length m) by lia.
  replace (Z.to_nat (Z.of_nat (length m + 4)
                     - Z.max 0 (Z.of_nat (length m + 4) + -4)))
    with (length t) by lia.
  rewrite skipn_app, skipn_all, Nat.sub_diag. cbn [skipn app].
  apply firstn_all.
Qed.

Lemma slice_position {A : Type} (b0 : A) (o r : list A) :
  length o = 4%nat -> slice (b0 :: o ++ r) (Some 1) (Some 5) = o.
Proof.
  intros Ho. unfold slice, slice_index. cbn [length]. rewrite length_app, Ho.
  cbn [Z.ltb Z.compare]. cbv zeta.
  replace (Z.to_nat (Z.min 1 (Z.of_nat (S (4 + length r))))) with 1%nat by lia.
  replace (Z.to_nat (Z.min 5 (Z.of_nat (S (4 + length r)))
                     - Z.min 1 (Z.of_nat (S (4 + length r)))))
    with (length o) by lia.
  cbn [skipn]. rewrite firstn_app, firstn_all, Nat.sub_diag.
  cbn [firstn]. apply app_nil_r.
Qed.

Lemma slice_payload {A : Type} (h p t : list A) :
  length h = 5%nat -> length t = 4%nat ->
  slice (h ++ p ++ t) (Some 5) (Some (-4)) = p.
Proof.
  intros Hh Ht. unfold slice, slice_index. rewrite !length_app, Hh, Ht.
  cbn [Z.ltb Z.compare]. cbv zeta.
  replace (Z.to_nat (Z.min 5 (Z.of_nat (5 + (length p + 4)))))
    with (length h) by lia.
  replace (Z.to_nat (Z.max 0 (Z.of_nat (5 + (length p + 4)) + -4)
                     - Z.min 5 (Z.of_nat (5 + (length p + 4)))))
    with (length p) by lia.
  rewrite skipn_app, skipn_all, Nat.sub_diag. cbn [skipn app].
  rewrite firstn_app, firstn_all, Nat.sub_diag. cbn [firstn].
  apply app_nil_r.
Qed.

(** ** The frame codec *)

Lemma v1_in_range (bindata : bytes) (qrnumber : Q) (sizesofar : Z) :
  0 <= sizesofar < 2 ^ 32 -> v1 bindata qrnumber sizesofar = Ok (frame_of bindata sizesofar).
Proof.
  intros H. unfold v1, frame_of.
  rewrite to_bytes_in_range by (change (256 ^ Z.of_nat 4) with (2 ^ 32); exact H).
  cbn [bind]. rewrite <- crc32_chain.
  rewrite to_bytes_in_range
    by (change (256 ^ Z.of_nat 4) with (2 ^ 32); apply crc32_u32).
  reflexivity.
Qed.

Lemma v1_overflow (bindata : bytes) (qrnumber : Q) (sizesofar : Z) :
  sizesofar < 0 \/ 2 ^ 32 <= sizesofar ->
  v1 bindata qrnumber sizesofar = Raise OverflowError.
Proof.
  intros H. unfold v1.
  rewrite to_bytes_out_of_range
    by (change (256 ^ Z.of_nat 4) with (2 ^ 32); exact H).
  reflexivity.
Qed.

(** [v1] returns a frame only for an offset of 32 bits. *)
Lemma v1_ok_range (bindata : bytes) (qrnumber : Q) (sizesofar : Z) (frame : bytes) :
  v1 bindata qrnumber sizesofar = Ok frame -> 0 <= sizesofar < 2 ^ 32.
Proof.
  intros Hv1.
  destruct (Z.ltb_spec sizesofar 0) as [Hneg|Hpos];
    [rewrite v1_overflow in Hv1 by (left; exact Hneg); discriminate|].
  destruct (Z.leb_spec (2 ^ 32) sizesofar) as [Hbig|Hsmall];
    [rewrite v1_overflow in Hv1 by (right; exact Hbig); discriminate|].
  lia.
Qed.

(** What [unframe_data] does on any input made of a five-byte header, a
    body and four trailing bytes. *)
Lemma unframe_data_parts (b0 : byte) (o p t : bytes) :
  length o = 4%nat -> length t = 4%nat ->
  unframe_data ((b0 :: o) ++ p ++ t) =
    if negb (Z.land (byte_val b0) 0xb0 =? 0xb0) then Raise (UnframeError NoMagic)
    else if Z.land (byte_val b0) 0xf =? 1 then
      if negb (crc32 ((b0 :: o) ++ p) 0 =? from_bytes t)
      then Raise (UnframeError CrcMismatch)
      else Ok (p, from_bytes o)
    else Raise (UnframeError (BadVersion (Z.land (byte_val b0) 0xf))).
Proof.
  intros Ho Ht. unfold unframe_data.
  change (index ((b0 :: o) ++ p ++ t) 0) with (Ok (A := byte) b0).
  cbn [bind].
  rewrite slice_payload by (assumption || (cbn [length]; lia)).
  rewrite app_assoc, slice_body, slice_trailer by assumption.
  rewrite <- app_assoc. change ((b0 :: o) ++ p ++ t) with (b0 :: o ++ p ++ t).
  rewrite slice_position by assumption.
  reflexivity.
Qed.

Lemma unframe_frame_of (bindata : bytes) (sizesofar : Z) :
  0 <= sizesofar < 2 ^ 32 ->
  unframe_data (frame_of bindata sizesofar) = Ok (bindata, sizesofar).
Proof.
  intros H. unfold frame_of. cbv zeta.
  change ([xb1] ++ to_bytes_be 4 sizesofar) with (xb1 :: to_bytes_be 4 sizesofar).
  rewrite unframe_data_parts by apply length_to_bytes_be.
  change (negb (Z.land (byte_val xb1) 0xb0 =? 0xb0)) with false.
  change (Z.land (byte_val xb1) 0xf =? 1) with true. cbv iota.
  rewrite !from_to_bytes_be_small
    by (change (256 ^ Z.of_nat 4) with (2 ^ 32); (exact H || apply crc32_u32)).
  rewrite Z.eqb_refl. reflexivity.
Qed.

(** C1: for every payload (the empty one included) and every offset in
    [0, 2^32), decoding the frame that encoding produced returns the
    payload and the offset: [unframe_data (v1 payload _ offset)] is
    [(payload, offset)]. *)
Theorem frame_roundtrip (payload : bytes) (qrnumber : Q) (offset : Z) :
  0 <= offset < 2 ^ 32 ->
  (frame <- v1 payload qrnumber offset ;; unframe_data frame)
  = Ok (payload, offset).
Proof.
  intros H. rewrite v1_in_range by exact H. cbn [bind].
  apply unframe_frame_of, H.
Qed.

Lemma frame_roundtrip_witness :
  0 <= 4 < 2 ^ 32 /\
  (frame <- v1 [] 3%Q 4 ;; unframe_data frame) = Ok ([], 4).
Proof.
  split; [lia | apply (frame_roundtrip [] 3%Q 4); lia].
Defined.

(** C7: the checksum the encoder chains (that of the header, then that of
    the payload continued from it) is the checksum the decoder computes in
    one pass over header and payload together. *)
Theorem crc_chained_is_one_pass (header payload : bytes) :
  crc32 payload (crc32 header 0) = crc32 (header ++ payload) 0.
Proof. symmetry. apply crc32_chain. Qed.

(** C9: an offset outside [0, 2^32) makes [v1] raise [OverflowError] (from
    the four-byte big-endian conversion): no frame is returned, so none
    carries a wrapped or truncated offset. *)
Theorem v1_offset_out_of_range (bindata : bytes) (qrnumber : Q) (sizesofar : Z) :
  sizesofar < 0 \/ 2 ^ 32 <= sizesofar ->
  v1 bindata qrnumber sizesofar = Raise OverflowError.
Proof. apply v1_overflow. Qed.

Lemma v1_offset_out_of_range_witness :
  (2 ^ 32 < 0 \/ 2 ^ 32 <= 2 ^ 32) /\
  v1 [x41; x42] 1%Q (2 ^ 32) = Raise OverflowError.
Proof.
  split; [right; lia | apply (v1_offset_out_of_range [x41; x42] 1%Q (2 ^ 32))].
  right. lia.
Defined.

(** C10: [unframe_data] puts no upper bound on the payload: a frame whose
    payload is longer than the chunk size, whatever that is, is decoded to
    that payload. *)
Theorem unframe_no_payload_bound
  (chunksize : Z) (payload : bytes) (qrnumber : Q) (offset : Z) :
  0 <= offset < 2 ^ 32 ->
  chunksize < Z.of_nat (length payload) ->
  exists frame,
    v1 payload qrnumber offset = Ok frame /\
    unframe_data frame = Ok (payload, offset).
Proof.
  intros H _. exists (frame_of payload offset).
  split; [apply v1_in_range | apply unframe_frame_of]; exact H.
Qed.

Lemma unframe_no_payload_bound_witness :
  0 <= 0 < 2 ^ 32 /\
  2 < Z.of_nat (length [x41; x42; x43]) /\
  exists frame,
    v1 [x41; x42; x43] 1%Q 0 = Ok frame /\
    unframe_data frame = Ok ([x41; x42; x43], 0).
Proof.
  split; [lia|]. split; [cbn; lia|].
  apply (unframe_no_payload_bound 2 [x41; x42; x43] 1%Q 0); cbn; lia.
Defined.

(** ** The magic check *)

(** The check of line 208 lets a leading byte through exactly when its
    bits 7, 5 and 4 are set: bit 6 is not looked at. *)
Lemma magic_check_nibbles (b0 : byte) :
  (Z.land (byte_val b0) 0xb0 =? 0xb0) = true <->
  high_nibble b0 = 0xB \/ high_nibble b0 = 0xF.
Proof.
  destruct b0; vm_compute; split; intros H;
    solve [ discriminate | reflexivity | left; reflexivity | right; reflexivity
          | destruct H as [H|H]; discriminate H ].
Qed.

(** A leading byte whose high nibble is neither [0xB] nor [0xF] is
    rejected with the magic-number message, whatever follows it. *)
Lemma unframe_data_no_magic (b0 : byte) (rest : bytes) :
  high_nibble b0 <> 0xB -> high_nibble b0 <> 0xF ->
  unframe_data (b0 :: rest) = Raise (UnframeError NoMagic).
Proof.
  intros HB HF. unfold unframe_data.
  change (index (b0 :: rest) 0) with (Ok (A := byte) b0). cbn [bind].
  destruct (Z.land (byte_val b0) 0xb0 =? 0xb0) eqn:E; [|reflexivity].
  apply magic_check_nibbles in E. tauto.
Qed.

(** C2: a byte sequence whose first byte has a high nibble other than
    [0xB] must be rejected with the magic-number error. Here the first
    byte is [0xF1], and the sequence is decoded as a frame with an empty
    payload at offset 0. *)
Theorem magic_check_accepts_0xF :
  high_nibble xf1 <> 0xB /\
  unframe_data [xf1; x00; x00; x00; x00; xb3; x76; x8e; xf0] = Ok ([], 0).
Proof.
  split; [vm_compute; discriminate | vm_compute; reflexivity].
Qed.

(** ** Inputs of any length *)

Lemma slice_upto_neg4 {A : Type} (l : list A) :
  slice l (Some 0) (Some (-4)) = firstn (length l - 4) l.
Proof.
  unfold slice, slice_index. cbn [Z.ltb Z.compare]. cbv zeta.
  replace (Z.to_nat (Z.min 0 (Z.of_nat (length l)))) with 0%nat by lia.
  cbn [skipn]. f_equal. lia.
Qed.

Lemma slice_from_neg4 {A : Type} (l : list A) :
  slice l (Some (-4)) None = skipn (length l - 4) l.
Proof.
  unfold slice, slice_index. cbn [Z.ltb Z.compare]. cbv zeta.
  replace (Z.to_nat (Z.max 0 (Z.of_nat (length l) + -4)))
    with (length l - 4)%nat by lia.
  apply firstn_all2. rewrite length_skipn. lia.
Qed.

Lemma slice_5_neg4 {A : Type} (l : list A) :
  slice l (Some 5) (Some (-4)) = firstn (length l - 9) (skipn 5 l).
Proof.
  unfold slice, slice_index. cbn [Z.ltb Z.compare]. cbv zeta.
  destruct (Nat.le_gt_cases 5 (length l)) as [Hge|Hlt].
  - replace (Z.to_nat (Z.min 5 (Z.of_nat (length l)))) with 5%nat by lia.
    f_equal. lia.
  - rewrite !(skipn_all2 l) by lia. rewrite !firstn_nil. reflexivity.
Qed.

(** [unframe_data] on a non-empty input, with its slices spelled out. *)
Lemma unframe_data_cons (b0 : byte) (rest : bytes) :
  let bindata := b0 :: rest in
  unframe_data bindata =
    if negb (Z.land (byte_val b0) 0xb0 =? 0xb0) then Raise (UnframeError NoMagic)
    else if Z.land (byte_val b0) 0xf =? 1 then
      if negb (crc32 (firstn (length bindata - 4) bindata) 0
               =? from_bytes (skipn (length bindata - 4) bindata))
      then Raise (UnframeError CrcMismatch)
      else Ok (firstn (length bindata - 9) (skipn 5 bindata),
               from_bytes (slice bindata (Some 1) (Some 5)))
    else Raise (UnframeError (BadVersion (Z.land (byte_val b0) 0xf))).
Proof.
  intros bindata. unfold unframe_data.
  change (index bindata 0) with (Ok (A := byte) b0). cbn [bind].
  rewrite slice_upto_neg4, slice_from_neg4, slice_5_neg4. reflexivity.
Qed.

Lemma from_bytes_cons_pos (b0 : byte) (rest : bytes) :
  byte_val b0 <> 0 -> from_bytes (b0 :: rest) <> 0.
Proof.
  intros H. change (b0 :: rest) with ([b0] ++ rest). rewrite from_bytes_app.
  replace (from_bytes [b0]) with (byte_val b0) by (cbn; lia).
  pose proof (byte_val_range b0). pose proof (from_bytes_range rest).
  assert (0 < 256 ^ Z.of_nat (length rest)) by (apply Z.pow_pos_nonneg; lia).
  nia.
Qed.

Lemma magic_check_nonzero (b0 : byte) :
  (Z.land (byte_val b0) 0xb0 =? 0xb0) = true -> byte_val b0 <> 0.
Proof.
  intros H E. rewrite E in H. discriminate H.
Qed.

Lemma slice_1_5_cons {A : Type} (b0 : A) (rest : list A) :
  slice (b0 :: rest) (Some 1) (Some 5) = firstn 4 rest.
Proof.
  unfold slice, slice_index. cbn [Z.ltb Z.compare length]. cbv zeta.
  replace (Z.to_nat (Z.min 1 (Z.of_nat (S (length rest))))) with 1%nat by lia.
  cbn [skipn].
  destruct (Nat.le_gt_cases 4 (length rest)) as [Hge|Hlt].
  - f_equal. lia.
  - rewrite !firstn_all2 by lia. reflexivity.
Qed.

(** C3, as the code has it: there is no check of the length, and what
    [unframe_data] does on a non-empty input shorter than 9 bytes is
    decided in this order. If the leading byte fails the magic test, the
    magic-number error. If its version nibble is not 1, the version
    error. If the input has 5 to 8 bytes of which the last four are the
    big-endian CRC-32 of those before, decoding succeeds: it returns the
    empty payload, with the position read from the bytes after the
    leading one (four at most). In every other case, so always for 1 to 4
    bytes, the checksum error. *)
Theorem unframe_data_short (b0 : byte) (rest : bytes) :
  let bindata := b0 :: rest in
  (length bindata < 9)%nat ->
  unframe_data bindata =
    if negb (Z.land (byte_val b0) 0xb0 =? 0xb0) then
      Raise (UnframeError NoMagic)
    else if negb (Z.land (byte_val b0) 0xf =? 1) then
      Raise (UnframeError (BadVersion (Z.land (byte_val b0) 0xf)))
    else if (5 <=? length bindata)%nat
            && (crc32 (firstn (length bindata - 4) bindata) 0
                =? from_bytes (skipn (length bindata - 4) bindata)) then
      Ok ([], from_bytes (firstn 4 rest))
    else
      Raise (UnframeError CrcMismatch).
Proof.
  intros bindata Hlen. unfold bindata in *.
  rewrite unframe_data_cons. cbv zeta.
  destruct (Z.land (byte_val b0) 0xb0 =? 0xb0) eqn:Emagic; cbn [negb];
    [|reflexivity].
  destruct (Z.land (byte_val b0) 0xf =? 1); cbn [negb]; [|reflexivity].
  rewrite slice_1_5_cons.
  replace (length (b0 :: rest) - 9)%nat with 0%nat by lia. cbn [firstn].
  destruct (Nat.leb_spec 5 (length (b0 :: rest))) as [Hge|Hlt]; cbn [andb].
  - destruct (crc32 (firstn (length (b0 :: rest) - 4) (b0 :: rest)) 0
              =? from_bytes (skipn (length (b0 :: rest) - 4) (b0 :: rest)));
      reflexivity.
  - replace (length (b0 :: rest) - 4)%nat with 0%nat by lia.
    cbn [firstn skipn].
    destruct (Z.eqb_spec (crc32 [] 0) (from_bytes (b0 :: rest))) as [E|_];
      [|reflexivity].
    exfalso.
    apply (from_bytes_cons_pos b0 rest (magic_check_nonzero b0 Emagic)).
    rewrite <- E. reflexivity.
Qed.

Lemma unframe_data_short_witness :
  (length (xb1 :: [x6e; x64; x6c; x97]) < 9)%nat /\
  unframe_data (xb1 :: [x6e; x64; x6c; x97]) = Ok ([], 0x6e646c97).
Proof.
  split; [cbn; lia|].
  rewrite (unframe_data_short xb1 [x6e; x64; x6c; x97]) by (cbn; lia).
  vm_compute. reflexivity.
Defined.

(** C3 as stated fails: these five bytes, a leading [0xB1] followed by its
    own CRC-32, are decoded without error. *)
Lemma unframe_data_short_accepted :
  (length [xb1; x6e; x64; x6c; x97] < 9)%nat /\
  unframe_data [xb1; x6e; x64; x6c; x97] = Ok ([], 0x6e646c97) /\
  unframe_data [xb1; x6e; x64; x6c; x97] <> Raise (UnframeError NoMagic).
Proof.
  split; [cbn; lia|].
  assert (unframe_data [xb1; x6e; x64; x6c; x97] = Ok ([], 0x6e646c97)) as E
    by (vm_compute; reflexivity).
  split; [exact E | rewrite E; discriminate].
Qed.

(** The empty input does not reach the magic check: indexing it raises. *)
Lemma unframe_data_empty : unframe_data [] = Raise IndexError.
Proof. reflexivity. Qed.

(** A short input with the right magic and version fails on the checksum,
    not on the magic number. *)
Lemma unframe_data_one_byte :
  unframe_data [xb1] = Raise (UnframeError CrcMismatch).
Proof. vm_compute. reflexivity. Qed.

(** ** Corrupted frames *)

Lemma flip_at_app_l (i k : nat) (m t : bytes) :
  (i < length m)%nat -> flip_at i k (m ++ t) = flip_at i k m ++ t.
Proof.
  revert i. induction m as [|b m IH]; intros i Hi; cbn [length] in Hi; [lia|].
  destruct i as [|j]; cbn [flip_at app]; [reflexivity|].
  rewrite IH by lia. reflexivity.
Qed.

(** A bit inverted in the header or the payload of a frame is a bit
    inverted in the bytes the checksum covers: the trailer is untouched. *)
Lemma flip_frame_of (i k : nat) (bindata : bytes) (sizesofar : Z) :
  (i < 5 + length bindata)%nat ->
  let covered_bytes := (xb1 :: to_bytes_be 4 sizesofar) ++ bindata in
  flip_at i k (frame_of bindata sizesofar)
  = flip_at i k covered_bytes ++ to_bytes_be 4 (crc32 covered_bytes 0).
Proof.
  intros Hi covered_bytes. unfold frame_of. cbv zeta.
  change ([xb1] ++ to_bytes_be 4 sizesofar) with (xb1 :: to_bytes_be 4 sizesofar).
  rewrite app_assoc. apply flip_at_app_l.
  unfold covered_bytes. cbn [app length].
  rewrite length_app, length_to_bytes_be. lia.
Qed.

(** Any frame-shaped input whose trailer is the checksum of other bytes of
    the same length with one bit inverted fails the checksum test, once it
    is past the magic and version tests. *)
Lemma unframe_data_flipped (b0 : byte) (body original : bytes) (i k : nat) :
  b0 :: body = flip_at i k original ->
  (i < length original)%nat -> (k < 8)%nat -> (4 <= length body)%nat ->
  unframe_data ((b0 :: body) ++ to_bytes_be 4 (crc32 original 0)) =
    if negb (Z.land (byte_val b0) 0xb0 =? 0xb0) then Raise (UnframeError NoMagic)
    else if Z.land (byte_val b0) 0xf =? 1 then Raise (UnframeError CrcMismatch)
    else Raise (UnframeError (BadVersion (Z.land (byte_val b0) 0xf))).
Proof.
  intros Hflip Hi Hk Hbody.
  rewrite <- (firstn_skipn 4 body) at 1.
  change (b0 :: firstn 4 body ++ skipn 4 body)
    with ((b0 :: firstn 4 body) ++ skipn 4 body).
  rewrite <- app_assoc.
  rewrite unframe_data_parts
    by (rewrite ?length_firstn, ?length_to_bytes_be; lia).
  change ((b0 :: firstn 4 body) ++ skipn 4 body)
    with (b0 :: firstn 4 body ++ skipn 4 body).
  rewrite firstn_skipn, Hflip.
  rewrite from_to_bytes_be_small
    by (change (256 ^ Z.of_nat 4) with (2 ^ 32); apply crc32_u32).
  destruct (Z.eqb_spec (crc32 (flip_at i k original) 0) (crc32 original 0))
    as [E|_]; [|reflexivity].
  exfalso. exact (crc32_flip original i k 0 Hi Hk E).
Qed.

(** C6, as the code has it: one bit inverted in the header or the payload
    of an encoded frame always makes [unframe_data] fail. The failure is
    the checksum error when the bit lies in the offset bytes or in the
    payload. In the leading byte, which the magic and version tests see
    before the checksum is looked at, an inverted version bit (0 to 3)
    gives the version error and an inverted magic bit 4, 5 or 7 gives the
    magic-number error. *)
Theorem unframe_data_bit_flip
  (payload : bytes) (qrnumber : Q) (offset : Z) (frame : bytes) (i k : nat) :
  v1 payload qrnumber offset = Ok frame ->
  (i < 5 + length payload)%nat -> (k < 8)%nat ->
  (exists msg, unframe_data (flip_at i k frame) = Raise (UnframeError msg)) /\
  ((1 <= i)%nat ->
   unframe_data (flip_at i k frame) = Raise (UnframeError CrcMismatch)) /\
  (i = 0%nat -> (k < 4)%nat ->
   exists version, version <> 1 /\
     unframe_data (flip_at i k frame) = Raise (UnframeError (BadVersion version))) /\
  (i = 0%nat -> k = 4%nat \/ k = 5%nat \/ k = 7%nat ->
   unframe_data (flip_at i k frame) = Raise (UnframeError NoMagic)).
Proof.
  intros Hv1 Hi Hk.
  pose proof (v1_ok_range _ _ _ _ Hv1) as Hoff.
  rewrite v1_in_range in Hv1 by exact Hoff.
  injection Hv1 as <-.
  rewrite flip_frame_of by exact Hi. cbv zeta.
  set (original := (xb1 :: to_bytes_be 4 offset) ++ payload).
  assert (length original = (5 + length payload)%nat) as Hlen
    by (unfold original; rewrite length_app; cbn [length];
        rewrite length_to_bytes_be; lia).
  destruct (flip_at i k original) as [|b0 body] eqn:Hflip.
  { apply (f_equal (@length byte)) in Hflip.
    rewrite length_flip_at, Hlen in Hflip. cbn in Hflip. lia. }
  assert (4 <= length body)%nat as Hbody.
  { apply (f_equal (@length byte)) in Hflip.
    rewrite length_flip_at, Hlen in Hflip. cbn [length] in Hflip. lia. }
  rewrite (unframe_data_flipped b0 body original i k
             (eq_sym Hflip) ltac:(lia) Hk Hbody).
  destruct i as [|j].
  - (* the leading byte *)
    unfold original in Hflip. cbn [app flip_at] in Hflip.
    injection Hflip as <- _.
    do 8 (destruct k as [|k]; [vm_compute; repeat split;
      try (intros; lia); try (eexists; reflexivity);
      try (intros _ _; eexists; split; [|reflexivity]; discriminate);
      try (intros _ [H|[H|H]]; (discriminate H || reflexivity)) |]).
    lia.
  - (* the offset bytes and the payload *)
    unfold original in Hflip. cbn [app flip_at] in Hflip.
    injection Hflip as <- _.
    change (negb (Z.land (byte_val xb1) 0xb0 =? 0xb0)) with false.
    change (Z.land (byte_val xb1) 0xf =? 1) with true. cbv iota.
    repeat split; try (intros; lia); try (intros; discriminate).
    eexists; reflexivity.
Qed.

Lemma unframe_data_bit_flip_witness :
  v1 [x41] 1%Q 0 = Ok (frame_of [x41] 0) /\
  (1 < 5 + length [x41])%nat /\ (0 < 8)%nat /\
  unframe_data (flip_at 1 0 (frame_of [x41] 0)) = Raise (UnframeError CrcMismatch).
Proof.
  split; [vm_compute; reflexivity|]. split; [cbn; lia|]. split; [lia|].
  apply (unframe_data_bit_flip [x41] 1%Q 0 (frame_of [x41] 0) 1 0);
    [vm_compute; reflexivity | cbn; lia | lia | lia].
Defined.

(** C6 as stated fails: with the low bit of the leading byte of a frame
    inverted, decoding stops at the version test, before the checksum. *)
Lemma unframe_data_version_bit_flip :
  v1 [] 1%Q 0 = Ok (frame_of [] 0) /\
  unframe_data (flip_at 0 0 (frame_of [] 0)) = Raise (UnframeError (BadVersion 0)) /\
  unframe_data (flip_at 0 0 (frame_of [] 0)) <> Raise (UnframeError CrcMismatch).
Proof.
  split; [vm_compute; reflexivity|].
  assert (unframe_data (flip_at 0 0 (frame_of [] 0))
          = Raise (UnframeError (BadVersion 0))) as E by (vm_compute; reflexivity).
  split; [exact E | rewrite E; discriminate].
Qed.

(** ** [run_restore] and frames that fail to decode *)

Section RestoreFacts.

Variables Image Code : Type.
Variable scan_codes : Image -> list Code.
Variable decodefunc : Code -> result bytes.

Lemma restore_codes_app (before after : list Code) (outfile : file) :
  restore_codes decodefunc (before ++ after) outfile =
    match restore_codes decodefunc before outfile with
    | (outfile', Ok _) => restore_codes decodefunc after outfile'
    | (outfile', Raise e) => (outfile', Raise e)
    end.
Proof.
  revert outfile. induction before as [|c before IH]; intros outfile.
  - reflexivity.
  - cbn [app restore_codes].
    destruct (frame <- decodefunc c;;
              decoded <- unframe_data frame;; place outfile decoded);
      [apply IH | reflexivity].
Qed.

Lemma restore_images_app (before after : list Image) (outfile : file) :
  restore_images scan_codes decodefunc (before ++ after) outfile =
    match restore_images scan_codes decodefunc before outfile with
    | (outfile', Ok _) => restore_images scan_codes decodefunc after outfile'
    | (outfile', Raise e) => (outfile', Raise e)
    end.
Proof.
  revert outfile. induction before as [|im before IH]; intros outfile.
  - reflexivity.
  - cbn [app restore_images].
    destruct (restore_codes decodefunc (scan_codes im) outfile) as [f [[]|e]];
      [apply IH | reflexivity].
Qed.

(** C4, as the code has it: the loop has no handler, so a string that
    [unframe_data] rejects ends the run with that [UnframeError]. The
    strings scanned before it have been written; the strings after it in
    the same image and all the images after are not processed. *)
Theorem run_restore_stops_at_unframe_error
  (images_before images_after : list Image) (image : Image)
  (before after : list Code) (encdata : Code)
  (frame : bytes) (msg : unframe_msg) (f1 f2 : file) :
  restore_images scan_codes decodefunc images_before open_wb = (f1, Ok tt) ->
  scan_codes image = before ++ encdata :: after ->
  restore_codes decodefunc before f1 = (f2, Ok tt) ->
  decodefunc encdata = Ok frame ->
  unframe_data frame = Raise (UnframeError msg) ->
  run_restore scan_codes decodefunc (images_before ++ image :: images_after)
  = (content f2, Raise (UnframeError msg)).
Proof.
  intros Himgs Hscan Hcodes Hdec Hunframe.
  unfold run_restore. rewrite restore_images_app, Himgs.
  cbn [restore_images]. rewrite Hscan, restore_codes_app, Hcodes.
  cbn [restore_codes]. rewrite Hdec. cbn [bind]. rewrite Hunframe.
  reflexivity.
Qed.

End RestoreFacts.

Lemma run_restore_stops_at_unframe_error_witness :
  let scan := fun image : list bytes => image in
  let decode := fun frame : bytes => Ok frame in
  restore_images scan decode [[frame_of [x41] 0]] open_wb = (mkfile [x41] 1, Ok tt) /\
  scan [frame_of [x42] 1; [x00]; frame_of [x43] 2]
    = [frame_of [x42] 1] ++ [x00] :: [frame_of [x43] 2] /\
  restore_codes decode [frame_of [x42] 1] (mkfile [x41] 1)
    = (mkfile [x41; x42] 2, Ok tt) /\
  decode [x00] = Ok [x00] /\
  unframe_data [x00] = Raise (UnframeError NoMagic) /\
  run_restore scan decode
    ([[frame_of [x41] 0]]
       ++ [frame_of [x42] 1; [x00]; frame_of [x43] 2] :: [[frame_of [x44] 3]])
  = ([x41; x42], Raise (UnframeError NoMagic)).
Proof.
  intros scan decode.
  assert (restore_images scan decode [[frame_of [x41] 0]] open_wb
          = (mkfile [x41] 1, Ok tt)) as H1 by (vm_compute; reflexivity).
  assert (restore_codes decode [frame_of [x42] 1] (mkfile [x41] 1)
          = (mkfile [x41; x42] 2, Ok tt)) as H2 by (vm_compute; reflexivity).
  assert (unframe_data [x00] = Raise (UnframeError NoMagic)) as H3
    by (vm_compute; reflexivity).
  repeat (split; [first [exact H1 | exact H2 | exact H3 | reflexivity]|]).
  exact (run_restore_stops_at_unframe_error (list bytes) bytes scan decode
           [[frame_of [x41] 0]] [[frame_of [x44] 3]]
           [frame_of [x42] 1; [x00]; frame_of [x43] 2]
           [frame_of [x42] 1] [frame_of [x43] 2] [x00] [x00] NoMagic
           (mkfile [x41] 1) (mkfile [x41; x42] 2)
           H1 eq_refl H2 eq_refl H3).
Defined.

(** C4 as stated fails: a string without the magic number, scanned before
    a good frame, ends the run; the good frame after it and the next image
    are never written. Skipping it would have given the same file as a run
    without it. *)
Lemma run_restore_does_not_skip :
  let scan := fun image : list bytes => image in
  let decode := fun frame : bytes => Ok frame in
  run_restore scan decode [[[x00]; frame_of [x41] 0]; [frame_of [x42] 1]]
    = ([], Raise (UnframeError NoMagic)) /\
  run_restore scan decode [[frame_of [x41] 0]; [frame_of [x42] 1]]
    = ([x41; x42], Ok tt) /\
  run_restore scan decode [[[x00]; frame_of [x41] 0]; [frame_of [x42] 1]]
    <> run_restore scan decode [[frame_of [x41] 0]; [frame_of [x42] 1]].
Proof.
  intros scan decode.
  assert (run_restore scan decode [[[x00]; frame_of [x41] 0]; [frame_of [x42] 1]]
          = ([], Raise (UnframeError NoMagic))) as E1 by (vm_compute; reflexivity).
  assert (run_restore scan decode [[frame_of [x41] 0]; [frame_of [x42] 1]]
          = ([x41; x42], Ok tt)) as E2 by (vm_compute; reflexivity).
  split; [exact E1|]. split; [exact E2|]. rewrite E1, E2. discriminate.
Qed.

(** ** The QR count [run_backup] logs *)

Lemma inject_Z_nonzero (c : Z) : c <> 0 -> ~ (inject_Z c == 0)%Q.
Proof.
  intros Hc H. apply Hc. unfold Qeq, inject_Z in H. cbn in H. lia.
Qed.

(** With the quotient kept exact, the count logged for a file of [size]
    bytes is [size // chunksize + 1]. *)
Lemma format_d_qr_count (size chunksize : Z) :
  0 <= size -> 0 < chunksize ->
  format_d (inject_Z size / inject_Z chunksize + 1)%Q = size / chunksize + 1.
Proof.
  intros Hs Hc.
  assert (inject_Z size / inject_Z chunksize + 1
          == inject_Z (size + chunksize) / inject_Z chunksize)%Q as Heq.
  { rewrite inject_Z_plus. field. apply inject_Z_nonzero. lia. }
  assert (Qfloor (inject_Z size / inject_Z chunksize + 1) = size / chunksize + 1)
    as Hfloor.
  { rewrite (Qfloor_comp _ _ Heq), <- Zdiv_Qdiv.
    replace (size + chunksize) with (size + 1 * chunksize) by lia.
    apply Z.div_add. lia. }
  unfold format_d.
  destruct (Qle_bool 0 (inject_Z size / inject_Z chunksize + 1)) eqn:E;
    [exact Hfloor|].
  exfalso.
  assert (0 <= inject_Z size / inject_Z chunksize + 1)%Q as Hq.
  { rewrite Heq. apply Qle_shift_div_l.
    - change 0%Q with (inject_Z 0). rewrite <- Zlt_Qlt. exact Hc.
    - rewrite Qmult_0_l. change 0%Q with (inject_Z 0).
      rewrite <- Zle_Qle. lia. }
  apply Qle_bool_iff in Hq. rewrite Hq in E. discriminate E.
Qed.

(** ** The backup loop *)

Lemma read_inv (infile : bytes) (n : Z) (bindata infile' : bytes) :
  read infile n = (bindata, infile') ->
  infile = bindata ++ infile' /\
  (bindata <> [] -> (length infile' < length infile)%nat) /\
  (0 < n -> bindata = [] -> infile = []) /\
  (0 <= n -> (length bindata <= Z.to_nat n)%nat) /\
  (0 <= n -> infile' <> [] -> length bindata = Z.to_nat n).
Proof.
  unfold read. destruct (Z.ltb_spec n 0) as [Hneg|Hpos]; intros [= <- <-].
  - rewrite app_nil_r. repeat split; try lia.
    intros H. destruct infile; [congruence | cbn; lia].
  - rewrite firstn_skipn. repeat split.
    + intros H. rewrite length_skipn.
      destruct infile as [|b t]; [rewrite firstn_nil in H; congruence|].
      destruct (Z.to_nat n); [cbn in H; congruence | cbn [length]; lia].
    + intros Hn H. destruct infile as [|b t]; [reflexivity|].
      destruct (Z.to_nat n) eqn:E; [lia | discriminate H].
    + intros _. rewrite length_firstn. lia.
    + intros _ H. rewrite length_firstn.
      destruct (Nat.le_gt_cases (Z.to_nat n) (length infile)); [lia|].
      rewrite skipn_all2 in H by lia. congruence.
Qed.

Section BackupFacts.

Variables Frame Code : Type.
Variable framedata : bytes -> Q -> Z -> result Frame.
Variable encodefunc : Frame -> Code.
Variable chunksize : Z.
Variable qr_count : Q.

(** The loop ends for every chunk size: fuel beyond the length of the
    input is never used up. *)
Lemma backup_loop_total (fuel : nat) (infile : bytes) (sizesofar : Z) :
  (length infile < fuel)%nat ->
  exists r, backup_loop framedata encodefunc chunksize qr_count
              fuel infile sizesofar = Some r.
Proof.
  revert infile sizesofar.
  induction fuel as [|fuel IH]; intros infile sizesofar Hfuel; [lia|].
  cbn [backup_loop].
  destruct (read infile chunksize) as [bindata infile'] eqn:Hread.
  destruct (read_inv _ _ _ _ Hread) as (_ & Hlt & _).
  destruct bindata as [|b bindata]; [eexists; reflexivity|].
  destruct (framedata (b :: bindata) qr_count sizesofar) as [frame|e];
    [|eexists; reflexivity].
  destruct (IH infile' (sizesofar + Z.of_nat (length (b :: bindata))))
    as [[codes r] Hr].
  - specialize (Hlt ltac:(discriminate)). lia.
  - rewrite Hr. eexists; reflexivity.
Qed.

End BackupFacts.

(** [run_backup] always returns, and what it logs as the total number of
    QR codes is [size // chunksize + 1]. *)
Lemma run_backup_logs {Code : Type} (encodefunc : bytes -> Code)
  (chunksize : Z) (infile : bytes) :
  0 < chunksize ->
  exists run,
    run_backup encodefunc chunksize infile = Some run /\
    logged_qr_count run = Some (Z.of_nat (length infile) / chunksize + 1).
Proof.
  intros Hc. unfold run_backup, run_backup_with, true_div.
  destruct (Z.eqb_spec chunksize 0); [lia|].
  destruct (backup_loop_total bytes Code frame_data_func encodefunc chunksize
              (inject_Z (Z.of_nat (length infile)) / inject_Z chunksize + 1)%Q
              (S (length infile)) infile 0 ltac:(lia)) as [[codes r] Hr].
  rewrite Hr. eexists. split; [reflexivity|].
  cbn [logged_qr_count]. rewrite format_d_qr_count by lia. reflexivity.
Qed.

(** C5: the total logged must be [ceil(size / chunksize)]. For a file of 8
    bytes and a chunk size of 4 that is 2, and 2 codes are exported; the
    total logged is 3. *)
Theorem run_backup_qr_count_off_by_one :
  let infile := [x41; x42; x43; x44; x45; x46; x47; x48] in
  exists run,
    run_backup (fun frame : bytes => frame) 4 infile = Some run /\
    logged_qr_count run = Some 3 /\
    length (exported run) = 2%nat /\
    expected_chunk_count (Z.of_nat (length infile)) 4 = 2.
Proof.
  eexists. split; [vm_compute; reflexivity|].
  repeat split.
Qed.

(** ** The chunk stream *)

(** The loop run on the last [length infile] bytes of a file, of which [k]
    bytes came before: every chunk it passes on is the slice of [infile]
    at its offset, and every byte of [infile] lies in one chunk. *)
Lemma chunk_loop_spec (chunksize : Z) (qr_count : Q) (fuel : nat) :
  0 < chunksize ->
  forall (infile : bytes) (k : nat),
  (length infile < fuel)%nat ->
  exists chunks,
    backup_loop record_chunk (fun chunk => chunk) chunksize qr_count
      fuel infile (Z.of_nat k) = Some (chunks, Ok tt) /\
    (forall chunk, In chunk chunks ->
       fst chunk <> [] /\
       exists j : nat,
         snd chunk = Z.of_nat (k + j) /\
         (j + length (fst chunk) <= length infile)%nat /\
         firstn (length (fst chunk)) (skipn j infile) = fst chunk) /\
    (forall i, (i < length infile)%nat ->
       exists chunk, In chunk chunks /\
         snd chunk <= Z.of_nat (k + i)
           < snd chunk + Z.of_nat (length (fst chunk))).
Proof.
  intros Hc. induction fuel as [|fuel IH]; intros infile k Hfuel; [lia|].
  cbn [backup_loop].
  destruct (read infile chunksize) as [bindata infile'] eqn:Hread.
  destruct (read_inv _ _ _ _ Hread) as (Happ & Hlt & Hnil & _).
  destruct bindata as [|b bindata].
  - rewrite (Hnil Hc eq_refl). exists []. split; [reflexivity|].
    split; [intros chunk []|]. cbn [length]. intros i Hi. lia.
  - unfold record_chunk at 1.
    specialize (Hlt ltac:(discriminate)).
    rewrite <- Nat2Z.inj_add.
    destruct (IH infile' (k + length (b :: bindata))%nat ltac:(lia))
      as (chunks & Hloop & Hslices & Hcover).
    rewrite Hloop. eexists. split; [reflexivity|].
    set (chunk0 := b :: bindata) in *.
    split.
    + intros chunk [<-|Hin]; cbn [fst snd].
      * split; [discriminate|]. exists 0%nat.
        rewrite Nat.add_0_r. split; [reflexivity|].
        rewrite Happ, length_app. split; [lia|].
        cbn [skipn]. rewrite firstn_app, firstn_all, Nat.sub_diag.
        cbn [firstn]. apply app_nil_r.
      * destruct (Hslices chunk Hin) as (Hne & j & Hoff & Hlen & Hfirst).
        split; [exact Hne|]. exists (length chunk0 + j)%nat.
        rewrite Happ, length_app.
        split; [rewrite Hoff; f_equal; lia|]. split; [lia|].
        rewrite skipn_app, skipn_all2 by lia.
        replace (length chunk0 + j - length chunk0)%nat with j by lia.
        exact Hfirst.
    + intros i Hi. rewrite Happ, length_app in Hi.
      destruct (Nat.lt_ge_cases i (length chunk0)) as [Hin0|Hafter].
      * exists (chunk0, Z.of_nat k). split; [left; reflexivity|].
        cbn [fst snd]. lia.
      * destruct (Hcover (i - length chunk0)%nat ltac:(lia))
          as (chunk & Hin & Hrange).
        exists chunk. split; [right; exact Hin|].
        replace (k + i)%nat
          with (k + length chunk0 + (i - length chunk0))%nat by lia.
        exact Hrange.
Qed.

Lemma chunk_stream_spec (chunksize : Z) (infile : bytes) :
  0 < chunksize ->
  (forall chunk, In chunk (chunk_stream chunksize infile) -> slice_of infile chunk) /\
  (forall i, (i < length infile)%nat -> covered (chunk_stream chunksize infile) i).
Proof.
  intros Hc. unfold chunk_stream.
  destruct (chunk_loop_spec chunksize 0%Q (S (length infile)) Hc infile 0
              ltac:(lia)) as (chunks & Hloop & Hslices & Hcover).
  change (Z.of_nat 0) with 0 in Hloop. rewrite Hloop. split.
  - intros chunk Hin. destruct (Hslices chunk Hin) as (_ & j & Hoff & Hlen & Hfirst).
    exists j. repeat split; assumption.
  - intros i Hi. destruct (Hcover i Hi) as (chunk & Hin & Hrange).
    exists chunk. split; assumption.
Qed.

(** ** Positioned writes *)

Lemma write_spec (old : bytes) (k : nat) (bindata : bytes) :
  bindata <> [] ->
  let new := content (write (mkfile old k) bindata) in
  length new = Nat.max (length old) (k + length bindata) /\
  (forall i, (k <= i < k + length bindata)%nat ->
             nth_error new i = nth_error bindata (i - k)) /\
  (forall i, (i < length old)%nat -> ~ (k <= i < k + length bindata)%nat ->
             nth_error new i = nth_error old i).
Proof.
  intros Hne. unfold write.
  destruct bindata as [|b bindata]; [congruence|].
  set (p := b :: bindata). cbn [content pos]. cbv zeta.
  set (padded := old ++ repeat x00 (k - length old)).
  assert (length padded = Nat.max (length old) k) as Hpad
    by (unfold padded; rewrite length_app, repeat_length; lia).
  assert (length (firstn k padded) = k) as Hfirst
    by (rewrite length_firstn; lia).
  split; [|split].
  - rewrite !length_app, Hfirst, length_skipn, Hpad. lia.
  - intros i Hi.
    rewrite nth_error_app2 by lia. rewrite Hfirst.
    apply nth_error_app1. lia.
  - intros i Hi Hout.
    destruct (Nat.lt_ge_cases i k) as [Hlow|Hhigh].
    + rewrite nth_error_app1 by lia.
      rewrite nth_error_firstn.
      destruct (Nat.ltb_spec i k); [|lia].
      unfold padded. apply nth_error_app1. exact Hi.
    + rewrite nth_error_app2 by lia. rewrite Hfirst.
      rewrite nth_error_app2 by lia.
      rewrite nth_error_skipn.
      replace (k + length p + (i - k - length p))%nat with i by lia.
      unfold padded. apply nth_error_app1. exact Hi.
Qed.

Lemma slice_of_nth_error (data : bytes) (frame : bytes * Z) (k i : nat) :
  snd frame = Z.of_nat k ->
  firstn (length (fst frame)) (skipn k data) = fst frame ->
  (k <= i < k + length (fst frame))%nat ->
  nth_error (fst frame) (i - k) = nth_error data i.
Proof.
  intros _ Hfirst Hi. rewrite <- Hfirst at 1.
  rewrite nth_error_firstn.
  destruct (Nat.ltb_spec (i - k) (length (fst frame))); [|lia].
  rewrite nth_error_skipn. f_equal. lia.
Qed.

(** Writing a slice of [data] at its offset keeps the file in agreement
    with [data]. *)
Lemma place_agrees (data : bytes) (outfile : file) (frame : bytes * Z)
  (done : list (bytes * Z)) :
  slice_of data frame -> agrees data outfile done ->
  exists outfile',
    place outfile frame = Ok outfile' /\ agrees data outfile' (frame :: done).
Proof.
  intros (k & Hoff & Hlen & Hfirst) [Hsize Hdone].
  destruct frame as [bindata position]. cbn [fst snd] in *. subst position.
  destruct outfile as [old p]. cbn [content] in *.
  unfold place, seek. destruct (Z.ltb_spec (Z.of_nat k) 0) as [?|_]; [lia|].
  cbn [bind content]. rewrite Nat2Z.id.
  eexists. split; [reflexivity|].
  destruct bindata as [|b bindata].
  - (* nothing is written *)
    cbn [write]. split; [exact Hsize|].
    intros i (fr & [<-|Hin] & Hrange).
    + cbn [fst snd length] in Hrange. lia.
    + apply Hdone. exists fr. split; assumption.
  - set (bindata' := b :: bindata) in *.
    destruct (write_spec old k bindata' ltac:(discriminate))
      as (Hnewlen & Hinside & Houtside).
    cbv zeta in Hnewlen, Hinside, Houtside.
    change (write {| content := old; pos := k |} bindata')
      with (write (mkfile old k) bindata').
    split; [rewrite Hnewlen; lia|].
    assert (forall i, covered ((bindata', Z.of_nat k) :: done) i ->
                      ~ (k <= i < k + length bindata')%nat ->
                      nth_error (content (write (mkfile old k) bindata')) i
                      = nth_error data i) as Hrest.
    { intros i (fr & [<-|Hin] & Hrange) Hout;
        [cbn [fst snd] in Hrange; lia|].
      assert (nth_error old i = nth_error data i) as Hold
        by (apply Hdone; exists fr; split; assumption).
      destruct (Nat.lt_ge_cases i (length old)) as [Hi|Hge].
      - rewrite Houtside by assumption. exact Hold.
      - assert (nth_error data i = None) as Hnone
          by (rewrite <- Hold; apply nth_error_None; exact Hge).
        rewrite Hnone. apply nth_error_None. rewrite Hnewlen.
        apply nth_error_None in Hnone. lia. }
    intros i Hcov.
    destruct (Nat.le_gt_cases k i) as [Hki|Hik];
      [destruct (Nat.lt_ge_cases i (k + length bindata')) as [Hin|Hpast]|].
    + rewrite Hinside by lia.
      apply (slice_of_nth_error data (bindata', Z.of_nat k) k i);
        [reflexivity | exact Hfirst | cbn [fst]; lia].
    + apply (Hrest i Hcov). lia.
    + apply (Hrest i Hcov). lia.
Qed.

Lemma covered_cons_app (frame : bytes * Z) (rest done : list (bytes * Z)) (i : nat) :
  covered ((frame :: rest) ++ done) i <-> covered (rest ++ frame :: done) i.
Proof.
  unfold covered. split; intros (fr & Hin & Hrange); exists fr;
    (split; [|exact Hrange]).
  - cbn [app] in Hin. apply in_app_iff.
    destruct Hin as [<-|Hin]; [right; left; reflexivity|].
    apply in_app_iff in Hin. destruct Hin; [left | right; right]; assumption.
  - cbn [app]. apply in_app_iff in Hin.
    destruct Hin as [Hin|[<-|Hin]];
      [right; apply in_app_iff; left | left | right; apply in_app_iff; right];
      auto.
Qed.

Lemma place_all_agrees (data : bytes) (frames : list (bytes * Z)) :
  (forall frame, In frame frames -> slice_of data frame) ->
  forall (outfile : file) (done : list (bytes * Z)),
  agrees data outfile done ->
  exists outfile',
    place_all frames outfile = Ok outfile' /\
    agrees data outfile' (frames ++ done).
Proof.
  induction frames as [|frame rest IH]; intros Hslices outfile done Hagree.
  - exists outfile. split; [reflexivity | exact Hagree].
  - destruct (place_agrees data outfile frame done
                (Hslices frame (or_introl eq_refl)) Hagree)
      as (outfile1 & Hplace & Hagree1).
    destruct (IH (fun fr Hin => Hslices fr (or_intror Hin))
                outfile1 (frame :: done) Hagree1)
      as (outfile' & Hall & [Hsize Hnth]).
    exists outfile'. cbn [place_all]. rewrite Hplace. cbn [bind].
    split; [exact Hall|]. split; [exact Hsize|].
    intros i Hcov. apply Hnth, covered_cons_app, Hcov.
Qed.

Lemma agrees_all_covered (data : bytes) (outfile : file) (frames : list (bytes * Z)) :
  agrees data outfile frames ->
  (forall i, (i < length data)%nat -> covered frames i) ->
  content outfile = data.
Proof.
  intros [Hsize Hnth] Hall. apply nth_error_ext. intros i.
  destruct (Nat.lt_ge_cases i (length data)) as [Hi|Hge].
  - apply Hnth, Hall, Hi.
  - rewrite (proj2 (nth_error_None data i) Hge).
    apply nth_error_None. lia.
Qed.

Lemma agrees_open_wb (data : bytes) : agrees data open_wb [].
Proof.
  split; [cbn; lia|]. intros i (fr & [] & _).
Qed.

(** C8: the chunks of a file, cut at offsets 0, C, 2C, ... by the backup
    loop, written in any order into an empty file by positioned writes,
    give back the file byte for byte. *)
Theorem restore_any_order
  (chunksize : Z) (infile : bytes) (frames : list (bytes * Z)) :
  0 < chunksize ->
  Permutation frames (chunk_stream chunksize infile) ->
  exists outfile,
    place_all frames open_wb = Ok outfile /\ content outfile = infile.
Proof.
  intros Hc Hperm.
  destruct (chunk_stream_spec chunksize infile Hc) as [Hslices Hcover].
  destruct (place_all_agrees infile frames
              (fun fr Hin => Hslices fr (Permutation_in fr Hperm Hin))
              open_wb [] (agrees_open_wb infile))
    as (outfile & Hall & Hagree).
  exists outfile. split; [exact Hall|].
  apply (agrees_all_covered infile outfile (frames ++ [])); [exact Hagree|].
  intros i Hi. destruct (Hcover i Hi) as (fr & Hin & Hrange).
  exists fr. split; [|exact Hrange].
  rewrite app_nil_r. apply (Permutation_in fr (Permutation_sym Hperm) Hin).
Qed.

Lemma restore_any_order_witness :
  let infile := [x41; x42; x43; x44; x45; x46; x47; x48] in
  let frames := [([x45; x46; x47; x48], 4); ([x41; x42; x43; x44], 0)] in
  0 < 4 /\
  Permutation frames (chunk_stream 4 infile) /\
  exists outfile,
    place_all frames open_wb = Ok outfile /\ content outfile = infile.
Proof.
  intros infile frames.
  assert (Permutation frames (chunk_stream 4 infile)) as Hperm
    by (vm_compute; apply perm_swap).
  split; [lia|]. split; [exact Hperm|].
  apply (restore_any_order 4 infile frames); [lia | exact Hperm].
Defined.

(** ** Where the chunks lie *)

Lemma backup_loop_nil {Frame Code : Type}
  (framedata : bytes -> Q -> Z -> result Frame) (encodefunc : Frame -> Code)
  (chunksize : Z) (qr_count : Q) (fuel : nat) (sizesofar : Z) :
  0 <= chunksize ->
  backup_loop framedata encodefunc chunksize qr_count (S fuel) [] sizesofar
  = Some ([], Ok tt).
Proof.
  intros Hc. cbn [backup_loop]. unfold read.
  destruct (Z.ltb_spec chunksize 0); [lia|].
  rewrite firstn_nil. reflexivity.
Qed.

(** Chunk number [n] (from 0) of the loop started at [sizesofar] begins at
    [sizesofar + n * chunksize] and holds the [chunksize] bytes found
    there, or fewer at the end of the file. *)
Lemma chunk_loop_offsets (chunksize : Z) (qr_count : Q) (fuel : nat) :
  0 < chunksize ->
  forall (infile : bytes) (sizesofar : Z) (chunks : list (bytes * Z))
         (r : result unit) (n : nat) (chunk : bytes * Z),
  backup_loop record_chunk (fun chunk => chunk) chunksize qr_count
    fuel infile sizesofar = Some (chunks, r) ->
  nth_error chunks n = Some chunk ->
  snd chunk = sizesofar + Z.of_nat n * chunksize /\
  fst chunk = firstn (Z.to_nat chunksize) (skipn (n * Z.to_nat chunksize) infile).
Proof.
  intros Hc. induction fuel as [|fuel IH];
    intros infile sizesofar chunks r n chunk Hloop Hnth; [discriminate|].
  cbn [backup_loop] in Hloop.
  destruct (read infile chunksize) as [bindata infile'] eqn:Hread.
  destruct (read_inv _ _ _ _ Hread) as (_ & _ & _ & _ & Hfull).
  unfold read in Hread. destruct (Z.ltb_spec chunksize 0); [lia|].
  injection Hread as Hbin Hrest.
  destruct bindata as [|b bindata];
    [injection Hloop as <- _; destruct n; discriminate|].
  unfold record_chunk at 1 in Hloop.
  destruct (backup_loop record_chunk (fun chunk0 => chunk0) chunksize qr_count
              fuel infile' (sizesofar + Z.of_nat (length (b :: bindata))))
    as [[chunks' r']|] eqn:Hloop'; [|discriminate].
  injection Hloop as <- _.
  destruct n as [|n]; cbn [nth_error] in Hnth.
  - injection Hnth as <-. cbn [fst snd skipn Nat.mul].
    split; [lia | symmetry; exact Hbin].
  - destruct (IH _ _ _ _ _ _ Hloop' Hnth) as [Hoff Hfst].
    assert (infile' <> []) as Hne.
    { intros ->. destruct fuel; [discriminate|].
      rewrite backup_loop_nil in Hloop' by lia.
      injection Hloop' as <- _. destruct n; discriminate. }
    rewrite (Hfull ltac:(lia) Hne) in Hoff.
    split; [rewrite Hoff; lia|].
    rewrite Hfst, <- Hrest, skipn_skipn. do 2 f_equal. lia.
Qed.

Lemma chunk_stream_offsets (chunksize : Z) (infile : bytes)
  (n : nat) (chunk : bytes * Z) :
  0 < chunksize ->
  nth_error (chunk_stream chunksize infile) n = Some chunk ->
  snd chunk = Z.of_nat n * chunksize /\
  fst chunk = firstn (Z.to_nat chunksize) (skipn (n * Z.to_nat chunksize) infile).
Proof.
  intros Hc. unfold chunk_stream.
  destruct (backup_loop record_chunk (fun chunk0 => chunk0) chunksize 0%Q
              (S (length infile)) infile 0) as [[chunks r]|] eqn:Hloop;
    [|destruct n; discriminate].
  intros Hnth.
  exact (chunk_loop_offsets chunksize 0%Q _ Hc _ _ _ _ _ _ Hloop Hnth).
Qed.

(** ** Writing a frame twice *)

(** A frame applied a second time leaves the file as the first
    application left it. *)
Lemma place_idempotent (outfile outfile1 : file) (frame : bytes * Z) :
  place outfile frame = Ok outfile1 ->
  exists outfile2,
    place outfile1 frame = Ok outfile2 /\ content outfile2 = content outfile1.
Proof.
  destruct frame as [bindata position]. unfold place, seek.
  destruct (Z.ltb_spec position 0) as [?|Hpos]; [discriminate|].
  cbn [bind]. intros [= <-]. eexists. split; [reflexivity|].
  destruct bindata as [|b bindata]; [reflexivity|].
  set (p := b :: bindata). set (k := Z.to_nat position).
  destruct (write_spec (content outfile) k p ltac:(discriminate))
    as (Hlen1 & Hin1 & Hout1). cbv zeta in Hlen1, Hin1, Hout1.
  change (mkfile (content outfile) k) with {| content := content outfile; pos := k |} in *.
  set (c1 := content (write {| content := content outfile; pos := k |} p)) in *.
  destruct (write_spec c1 k p ltac:(discriminate)) as (Hlen2 & Hin2 & Hout2).
  cbv zeta in Hlen2, Hin2, Hout2.
  change (mkfile c1 k) with {| content := c1; pos := k |} in *.
  apply nth_error_ext. intros i.
  destruct (Nat.lt_ge_cases i (length c1)) as [Hi|Hge].
  - destruct (Nat.le_gt_cases k i) as [Hki|Hik];
      [destruct (Nat.lt_ge_cases i (k + length p)) as [Hin|Hpast]|].
    + rewrite Hin2, Hin1 by lia. reflexivity.
    + apply Hout2; lia.
    + apply Hout2; lia.
  - rewrite (proj2 (nth_error_None c1 i) Hge).
    apply nth_error_None. lia.
Qed.

(** ** Backup followed by restore *)

Lemma chunk_stream_offset_range (chunksize : Z) (infile : bytes) (chunk : bytes * Z) :
  0 < chunksize -> In chunk (chunk_stream chunksize infile) ->
  0 <= snd chunk < Z.of_nat (length infile).
Proof.
  intros Hc. unfold chunk_stream.
  destruct (chunk_loop_spec chunksize 0%Q (S (length infile)) Hc infile 0
              ltac:(lia)) as (chunks & Hloop & Hslices & _).
  change (Z.of_nat 0) with 0 in Hloop. rewrite Hloop. intros Hin.
  destruct (Hslices chunk Hin) as (Hne & j & Hoff & Hlen & _).
  destruct (fst chunk); [congruence|]. cbn [length] in Hlen. lia.
Qed.

Section RestoreFrames.

Variables Image Code : Type.
Variable scan_codes : Image -> list Code.
Variable encodefunc : bytes -> Code.
Variable decodefunc : Code -> result bytes.
Hypothesis decode_encode : forall frame, decodefunc (encodefunc frame) = Ok frame.

Lemma restore_images_concat (importer : list Image) (outfile : file) :
  restore_images scan_codes decodefunc importer outfile
  = restore_codes decodefunc (concat (map scan_codes importer)) outfile.
Proof.
  revert outfile. induction importer as [|image rest IH]; intros outfile.
  - reflexivity.
  - cbn [restore_images map concat]. rewrite restore_codes_app.
    destruct (restore_codes decodefunc (scan_codes image) outfile)
      as [outfile' [[]|e]]; [apply IH | reflexivity].
Qed.

(** The inner loop on encoded frames does what [place_all] does on the
    pairs they carry. *)
Lemma restore_codes_frames (frames : list (bytes * Z)) (outfile outfile' : file) :
  (forall frame, In frame frames -> 0 <= snd frame < 2 ^ 32) ->
  place_all frames outfile = Ok outfile' ->
  restore_codes decodefunc
    (map (fun frame => encodefunc (frame_of (fst frame) (snd frame))) frames)
    outfile
  = (outfile', Ok tt).
Proof.
  revert outfile. induction frames as [|[bindata position] rest IH];
    intros outfile Hrange Hall.
  - injection Hall as <-. reflexivity.
  - cbn [map restore_codes fst snd]. cbn [place_all] in Hall.
    rewrite decode_encode. cbn [bind].
    rewrite unframe_frame_of
      by exact (Hrange (bindata, position) (or_introl eq_refl)).
    cbn [bind].
    destruct (place outfile (bindata, position)) as [outfile1|e];
      [|discriminate].
    cbn [bind] in Hall.
    apply IH; [|exact Hall].
    intros frame Hin. apply Hrange. right. exact Hin.
Qed.

End RestoreFrames.

(** * Further properties of the frame codec *)

Lemma to_from_bytes_be (bs : bytes) : to_bytes_be (length bs) (from_bytes bs) = bs.
Proof.
  induction bs as [|b bs IH] using rev_ind; [reflexivity|].
  rewrite length_app, Nat.add_comm, from_bytes_app. cbn [length Nat.add].
  replace (from_bytes [b]) with (byte_val b) by (cbn; lia).
  change (256 ^ Z.of_nat 1) with 256.
  pose proof (byte_val_range b) as Hb.
  cbn [to_bytes_be].
  replace ((from_bytes bs * 256 + byte_val b) / 256) with (from_bytes bs)
    by (symmetry; rewrite Z.add_comm, Z.div_add by lia;
        rewrite Z.div_small by lia; lia).
  replace ((from_bytes bs * 256 + byte_val b) mod 256) with (byte_val b)
    by (symmetry; rewrite Z.add_comm, Z.mod_add by lia;
        apply Z.mod_small; lia).
  rewrite IH, byte_of_Z_val. reflexivity.
Qed.

Lemma to_from_bytes_be4 (bs : bytes) :
  length bs = 4%nat -> to_bytes_be 4 (from_bytes bs) = bs.
Proof. intros H. rewrite <- H. apply to_from_bytes_be. Qed.

Lemma from_bytes_inj (a b : bytes) :
  length a = length b -> from_bytes a = from_bytes b -> a = b.
Proof.
  intros Hlen Hval.
  rewrite <- (to_from_bytes_be a), <- (to_from_bytes_be b), Hlen, Hval.
  reflexivity.
Qed.

Lemma frame_split (rest : bytes) :
  (8 <= length rest)%nat ->
  exists o p t, rest = o ++ p ++ t /\ length o = 4%nat /\ length t = 4%nat.
Proof.
  intros Hlen.
  exists (firstn 4 rest),
         (firstn (length rest - 8) (skipn 4 rest)),
         (skipn (length rest - 8) (skipn 4 rest)).
  rewrite !firstn_skipn, length_firstn, !length_skipn.
  repeat split; lia.
Qed.

(** X1: decoding, then encoding again, gives back the bytes decoded: an
    input of at least 9 bytes that starts with [0xB1] and that
    [unframe_data] accepts is the frame [v1] builds from the payload and
    the position it returned. *)
Theorem unframe_then_frame
  (rest payload : bytes) (position : Z) (qrnumber : Q) :
  (8 <= length rest)%nat ->
  unframe_data (xb1 :: rest) = Ok (payload, position) ->
  v1 payload qrnumber position = Ok (xb1 :: rest).
Proof.
  intros Hlen Hun.
  destruct (frame_split rest Hlen) as (o & p & t & -> & Ho & Ht).
  change (xb1 :: o ++ p ++ t) with ((xb1 :: o) ++ p ++ t) in Hun |- *.
  rewrite unframe_data_parts in Hun by assumption.
  change (negb (Z.land (byte_val xb1) 0xb0 =? 0xb0)) with false in Hun.
  change (Z.land (byte_val xb1) 0xf =? 1) with true in Hun. cbv iota in Hun.
  destruct (Z.eqb_spec (crc32 ((xb1 :: o) ++ p) 0) (from_bytes t)) as [Hcrc|];
    [|discriminate].
  cbn [negb] in Hun. injection Hun as <- <-.
  pose proof (from_bytes_range o) as Hr. rewrite Ho in Hr.
  change (256 ^ Z.of_nat 4) with (2 ^ 32) in Hr.
  rewrite v1_in_range by exact Hr. unfold frame_of. cbv zeta.
  rewrite (to_from_bytes_be4 o Ho).
  change ([xb1] ++ o) with (xb1 :: o).
  rewrite Hcrc, (to_from_bytes_be4 t Ht). reflexivity.
Qed.

Lemma unframe_then_frame_witness :
  (8 <= length [x00; x00; x00; x04; x41; x42; x6d; xd7; x6d; x4e])%nat /\
  unframe_data (xb1 :: [x00; x00; x00; x04; x41; x42; x6d; xd7; x6d; x4e])
    = Ok ([x41; x42], 4) /\
  v1 [x41; x42] 1%Q 4
    = Ok (xb1 :: [x00; x00; x00; x04; x41; x42; x6d; xd7; x6d; x4e]).
Proof.
  assert (unframe_data (xb1 :: [x00; x00; x00; x04; x41; x42; x6d; xd7; x6d; x4e])
          = Ok ([x41; x42], 4)) as H by (vm_compute; reflexivity).
  split; [cbn; lia|]. split; [exact H|].
  apply (unframe_then_frame
           [x00; x00; x00; x04; x41; x42; x6d; xd7; x6d; x4e] [x41; x42] 4 1%Q);
    [cbn; lia | exact H].
Defined.

Lemma version_nibble (b0 : byte) : Z.land (byte_val b0) 0xf = low_nibble b0.
Proof.
  unfold low_nibble. change 0xf with (Z.ones 4).
  rewrite Z.land_ones by lia. reflexivity.
Qed.

(** X2: a leading byte with the magic number (high nibble [0xB], or [0xF],
    which the mask lets through as well) and a version nibble other than 1
    is rejected with the version error, whatever follows it: payload,
    checksum and length are not looked at. *)
Theorem unframe_data_bad_version (b0 : byte) (rest : bytes) :
  high_nibble b0 = 0xB \/ high_nibble b0 = 0xF ->
  low_nibble b0 <> 1 ->
  unframe_data (b0 :: rest)
  = Raise (UnframeError (BadVersion (low_nibble b0))).
Proof.
  intros Hmagic Hversion. rewrite unframe_data_cons. cbv zeta.
  apply magic_check_nibbles in Hmagic. rewrite Hmagic. cbn [negb].
  rewrite version_nibble.
  destruct (Z.eqb_spec (low_nibble b0) 1); [contradiction | reflexivity].
Qed.

Lemma unframe_data_bad_version_witness :
  (high_nibble xb2 = 0xB \/ high_nibble xb2 = 0xF) /\
  low_nibble xb2 <> 1 /\
  unframe_data (xb2 :: [x00; x01])
  = Raise (UnframeError (BadVersion (low_nibble xb2))).
Proof.
  split; [left; reflexivity|]. split; [vm_compute; discriminate|].
  apply (unframe_data_bad_version xb2 [x00; x01]);
    [left; reflexivity | vm_compute; discriminate].
Defined.

(** X3: a leading byte whose high nibble is neither [0xB] nor [0xF] is
    rejected with the magic-number error, whatever its low nibble and
    whatever follows it. *)
Theorem unframe_data_rejects_magic (b0 : byte) (rest : bytes) :
  high_nibble b0 <> 0xB -> high_nibble b0 <> 0xF ->
  unframe_data (b0 :: rest) = Raise (UnframeError NoMagic).
Proof. apply unframe_data_no_magic. Qed.

Lemma unframe_data_rejects_magic_witness :
  high_nibble xa1 <> 0xB /\ high_nibble xa1 <> 0xF /\
  unframe_data (xa1 :: [x00; x00; x00; x00; x00; x00; x00; x00])
  = Raise (UnframeError NoMagic).
Proof.
  split; [vm_compute; discriminate|]. split; [vm_compute; discriminate|].
  apply (unframe_data_rejects_magic xa1
           [x00; x00; x00; x00; x00; x00; x00; x00]);
    vm_compute; discriminate.
Defined.

Lemma length_slice_1_5 {A : Type} (l : list A) :
  (length (slice l (Some 1%Z) (Some 5%Z)) <= 4)%nat.
Proof.
  unfold slice, slice_index. cbn [Z.ltb Z.compare]. cbv zeta.
  rewrite length_firstn. lia.
Qed.

Lemma unframe_data_bounds (bindata payload : bytes) (position : Z) :
  unframe_data bindata = Ok (payload, position) ->
  0 <= position < 2 ^ 32 /\
  length payload = (length bindata - 9)%nat.
Proof.
  intros Hun. destruct bindata as [|b0 rest]; [discriminate|].
  rewrite unframe_data_cons in Hun. cbv zeta in Hun.
  destruct (negb (Z.land (byte_val b0) 0xb0 =? 0xb0)); [discriminate|].
  destruct (Z.land (byte_val b0) 0xf =? 1); [|discriminate].
  destruct (negb _); [discriminate|].
  assert (payload = firstn (length (b0 :: rest) - 9) (skipn 5 (b0 :: rest)) /\
          position = from_bytes (slice (b0 :: rest) (Some 1) (Some 5)))
    as [-> ->] by (split; congruence).
  clear Hun. split.
  - pose proof (from_bytes_range (slice (b0 :: rest) (Some 1) (Some 5))) as Hr.
    pose proof (length_slice_1_5 (b0 :: rest)) as Hl.
    assert (256 ^ Z.of_nat (length (slice (b0 :: rest) (Some 1) (Some 5)))
            <= 256 ^ 4) by (apply Z.pow_le_mono_r; lia).
    change (256 ^ 4) with (2 ^ 32) in *. lia.
  - rewrite length_firstn, length_skipn. lia.
Qed.

(** X4: whatever [unframe_data] accepts, the position it returns is an
    unsigned 32-bit number and the payload it returns is the input less
    its 9 bytes of header and trailer (empty for an input of fewer than 9
    bytes). *)
Theorem unframe_data_result_bounds (bindata payload : bytes) (position : Z) :
  unframe_data bindata = Ok (payload, position) ->
  0 <= position < 2 ^ 32 /\
  length payload = (length bindata - 9)%nat.
Proof. apply unframe_data_bounds. Qed.

Lemma unframe_data_result_bounds_witness :
  unframe_data [xb1; x6e; x64; x6c; x97] = Ok ([], 0x6e646c97) /\
  0 <= 0x6e646c97 < 2 ^ 32 /\
  length (@nil byte) = (length [xb1; x6e; x64; x6c; x97] - 9)%nat.
Proof.
  assert (unframe_data [xb1; x6e; x64; x6c; x97] = Ok ([], 0x6e646c97)) as H
    by (vm_compute; reflexivity).
  split; [exact H|].
  exact (unframe_data_result_bounds [xb1; x6e; x64; x6c; x97] [] 0x6e646c97 H).
Defined.

(** X5: every frame [v1] returns starts with the byte [0xB1] and is 9
    bytes longer than the payload. *)
Theorem v1_frame_shape
  (bindata : bytes) (qrnumber : Q) (sizesofar : Z) (frame : bytes) :
  v1 bindata qrnumber sizesofar = Ok frame ->
  nth_error frame 0 = Some xb1 /\ length frame = (length bindata + 9)%nat.
Proof.
  intros Hv1. pose proof (v1_ok_range _ _ _ _ Hv1) as Hr.
  rewrite v1_in_range in Hv1 by exact Hr. injection Hv1 as <-.
  unfold frame_of. cbv zeta. split; [reflexivity|].
  rewrite !length_app, !length_to_bytes_be. cbn [length]. lia.
Qed.

Lemma v1_frame_shape_witness :
  v1 [x41; x42] 1%Q 4
    = Ok [xb1; x00; x00; x00; x04; x41; x42; x6d; xd7; x6d; x4e] /\
  nth_error [xb1; x00; x00; x00; x04; x41; x42; x6d; xd7; x6d; x4e] 0 = Some xb1 /\
  length [xb1; x00; x00; x00; x04; x41; x42; x6d; xd7; x6d; x4e]
    = (length [x41; x42] + 9)%nat.
Proof.
  assert (v1 [x41; x42] 1%Q 4
          = Ok [xb1; x00; x00; x00; x04; x41; x42; x6d; xd7; x6d; x4e]) as H
    by (vm_compute; reflexivity).
  split; [exact H|].
  exact (v1_frame_shape [x41; x42] 1%Q 4 _ H).
Defined.

(** X6: two calls of [v1] that return the same frame were given the same
    payload and the same offset; the QR number plays no part. *)
Theorem v1_injective
  (bindata bindata' : bytes) (qrnumber qrnumber' : Q)
  (sizesofar sizesofar' : Z) (frame : bytes) :
  v1 bindata qrnumber sizesofar = Ok frame ->
  v1 bindata' qrnumber' sizesofar' = Ok frame ->
  bindata = bindata' /\ sizesofar = sizesofar'.
Proof.
  intros H1 H2.
  pose proof (v1_ok_range _ _ _ _ H1) as Hr1.
  pose proof (v1_ok_range _ _ _ _ H2) as Hr2.
  rewrite v1_in_range in H1, H2 by assumption.
  injection H1 as H1. injection H2 as H2.
  pose proof (unframe_frame_of bindata sizesofar Hr1) as U1.
  pose proof (unframe_frame_of bindata' sizesofar' Hr2) as U2.
  rewrite H1 in U1. rewrite H2, U1 in U2.
  injection U2 as -> ->. split; reflexivity.
Qed.

Lemma v1_injective_witness :
  v1 [x41] 1%Q 7 = Ok (frame_of [x41] 7) /\
  v1 [x41] 2%Q 7 = Ok (frame_of [x41] 7) /\
  [x41] = [x41] /\ 7 = 7.
Proof.
  assert (v1 [x41] 1%Q 7 = Ok (frame_of [x41] 7)) as H1
    by (vm_compute; reflexivity).
  assert (v1 [x41] 2%Q 7 = Ok (frame_of [x41] 7)) as H2
    by (vm_compute; reflexivity).
  split; [exact H1|]. split; [exact H2|].
  exact (v1_injective [x41] [x41] 1%Q 2%Q 7 7 _ H1 H2).
Defined.

Lemma flip_at_app_r (i k : nat) (m t : bytes) :
  (length m <= i)%nat -> flip_at i k (m ++ t) = m ++ flip_at (i - length m) k t.
Proof.
  revert i. induction m as [|b m IH]; intros i Hi; cbn [length] in Hi.
  - cbn [app length]. rewrite Nat.sub_0_r. reflexivity.
  - destruct i as [|j]; [lia|]. cbn [app flip_at length Nat.sub].
    rewrite IH by lia. reflexivity.
Qed.

Lemma flip_bit_neq (k : nat) (b : byte) : (k < 8)%nat -> flip_bit k b <> b.
Proof.
  intros Hk H. apply (f_equal byte_val) in H.
  rewrite byte_val_flip_bit in H by exact Hk.
  pose proof (pow2_bit_range k Hk).
  apply (lxor_nonzero_neq (byte_val b) (2 ^ Z.of_nat k)); [lia | exact H].
Qed.

Lemma flip_at_neq (i k : nat) (l : bytes) :
  (i < length l)%nat -> (k < 8)%nat -> flip_at i k l <> l.
Proof.
  revert i. induction l as [|b t IH]; intros i Hi Hk; cbn [length] in Hi; [lia|].
  destruct i as [|j]; cbn [flip_at]; intros H; injection H as H.
  - exact (flip_bit_neq k b Hk H).
  - exact (IH j ltac:(lia) Hk H).
Qed.

(** X7: one bit inverted in the 4-byte trailer of an encoded frame makes
    [unframe_data] fail with the checksum error. *)
Theorem unframe_data_trailer_bit_flip
  (payload : bytes) (qrnumber : Q) (offset : Z) (frame : bytes) (i k : nat) :
  v1 payload qrnumber offset = Ok frame ->
  (5 + length payload <= i < 9 + length payload)%nat -> (k < 8)%nat ->
  unframe_data (flip_at i k frame) = Raise (UnframeError CrcMismatch).
Proof.
  intros Hv1 Hi Hk. pose proof (v1_ok_range _ _ _ _ Hv1) as Hoff.
  rewrite v1_in_range in Hv1 by exact Hoff. injection Hv1 as <-.
  unfold frame_of. cbv zeta.
  change ([xb1] ++ to_bytes_be 4 offset) with (xb1 :: to_bytes_be 4 offset).
  set (m := (xb1 :: to_bytes_be 4 offset) ++ payload).
  assert (length m = (5 + length payload)%nat) as Hm
    by (unfold m; cbn [app length]; rewrite length_app, length_to_bytes_be; lia).
  rewrite app_assoc. fold m.
  rewrite flip_at_app_r by lia.
  set (t := to_bytes_be 4 (crc32 m 0)).
  set (t' := flip_at (i - length m) k t).
  assert (length t = 4%nat) as Ht by apply length_to_bytes_be.
  assert (length t' = 4%nat) as Ht' by (unfold t'; rewrite length_flip_at; exact Ht).
  unfold m. rewrite <- app_assoc.
  rewrite unframe_data_parts by (exact Ht' || apply length_to_bytes_be).
  change (negb (Z.land (byte_val xb1) 0xb0 =? 0xb0)) with false.
  change (Z.land (byte_val xb1) 0xf =? 1) with true. cbv iota.
  fold m.
  destruct (Z.eqb_spec (crc32 m 0) (from_bytes t')) as [E|_]; [|reflexivity].
  exfalso.
  assert (from_bytes t = crc32 m 0) as Et
    by (apply from_to_bytes_be_small;
        change (256 ^ Z.of_nat 4) with (2 ^ 32); apply crc32_u32).
  apply (flip_at_neq (i - length m) k t); [lia | exact Hk|].
  apply from_bytes_inj; [fold t'; lia | fold t'; lia].
Qed.

Lemma unframe_data_trailer_bit_flip_witness :
  v1 [x41] 1%Q 0 = Ok (frame_of [x41] 0) /\
  (5 + length [x41] <= 9 < 9 + length [x41])%nat /\ (7 < 8)%nat /\
  unframe_data (flip_at 9 7 (frame_of [x41] 0)) = Raise (UnframeError CrcMismatch).
Proof.
  split; [vm_compute; reflexivity|]. split; [cbn; lia|]. split; [lia|].
  apply (unframe_data_trailer_bit_flip [x41] 1%Q 0 (frame_of [x41] 0) 9 7);
    [vm_compute; reflexivity | cbn; lia | lia].
Defined.

(** X8: a frame that [unframe_data] has accepted can always be written:
    the seek to its position never raises. *)
Theorem place_after_unframe (bindata : bytes) (decoded : bytes * Z) (outfile : file) :
  unframe_data bindata = Ok decoded ->
  place outfile decoded
  = Ok (write (mkfile (content outfile) (Z.to_nat (snd decoded))) (fst decoded)).
Proof.
  destruct decoded as [payload position]. intros Hun.
  destruct (unframe_data_bounds _ _ _ Hun) as [Hpos _].
  unfold place, seek. destruct (Z.ltb_spec position 0); [lia|]. reflexivity.
Qed.

Lemma place_after_unframe_witness :
  unframe_data (frame_of [x41] 2) = Ok ([x41], 2) /\
  place open_wb ([x41], 2) = Ok (mkfile [x00; x00; x41] 3).
Proof.
  assert (unframe_data (frame_of [x41] 2) = Ok ([x41], 2)) as H
    by (vm_compute; reflexivity).
  split; [exact H|].
  exact (place_after_unframe (frame_of [x41] 2) ([x41], 2) open_wb H).
Defined.

(** * Further properties of [run_backup] *)

Lemma chunk_loop_partition (chunksize : Z) (qr_count : Q) (fuel : nat) :
  0 < chunksize ->
  forall (infile : bytes) (sizesofar : Z) (chunks : list (bytes * Z))
         (r : result unit),
  backup_loop record_chunk (fun chunk => chunk) chunksize qr_count
    fuel infile sizesofar = Some (chunks, r) ->
  concat (map fst chunks) = infile /\
  Z.of_nat (length chunks) = (Z.of_nat (length infile) + chunksize - 1) / chunksize /\
  (forall chunk, In chunk chunks ->
     0 < Z.of_nat (length (fst chunk)) <= chunksize /\ sizesofar <= snd chunk).
Proof.
  intros Hc. induction fuel as [|fuel IH];
    intros infile sizesofar chunks r Hloop; [discriminate|].
  cbn [backup_loop] in Hloop.
  destruct (read infile chunksize) as [bindata infile'] eqn:Hread.
  destruct (read_inv _ _ _ _ Hread) as (Happ & _ & Hnil & Hle & Hfull).
  destruct bindata as [|b bindata].
  - injection Hloop as <- _. rewrite (Hnil Hc eq_refl). cbn [length map concat].
    split; [reflexivity|]. split; [|intros chunk []].
    symmetry. apply Z.div_small. lia.
  - unfold record_chunk at 1 in Hloop.
    set (chunk0 := b :: bindata) in *.
    assert (0 < length chunk0)%nat as Hpos by (cbn; lia).
    specialize (Hle ltac:(lia)).
    destruct (backup_loop record_chunk (fun chunk => chunk) chunksize qr_count
                fuel infile' (sizesofar + Z.of_nat (length chunk0)))
      as [[chunks' r']|] eqn:Hloop'; [|discriminate].
    injection Hloop as <- _.
    destruct (IH _ _ _ _ Hloop') as (Hcat & Hcount & Hsizes).
    cbn [map concat fst length]. rewrite Hcat. split; [symmetry; exact Happ|].
    split.
    + rewrite Nat2Z.inj_succ, Hcount, Happ, length_app, Nat2Z.inj_add.
      destruct infile' as [|b' infile''].
      * cbn [length]. rewrite Z.div_small by lia.
        apply (Z.div_unique _ _ (Z.succ 0) (Z.of_nat (length chunk0) - 1)); lia.
      * rewrite (Hfull ltac:(lia) ltac:(discriminate)).
        rewrite Z2Nat.id by lia.
        replace (chunksize + Z.of_nat (length (b' :: infile'')) + chunksize - 1)
          with (Z.of_nat (length (b' :: infile'')) + chunksize - 1 + 1 * chunksize)
          by lia.
        rewrite Z.div_add by lia. lia.
    + intros chunk [<-|Hin]; cbn [fst snd]; [lia|].
      destruct (Hsizes chunk Hin). lia.
Qed.

(** X10: chunk number [n] of the loop, counted from 0, lies at offset
    [n * chunksize] and holds the [chunksize] bytes of the file found
    there, or what is left of the file when that is less. *)
Theorem chunk_stream_nth (chunksize : Z) (infile : bytes)
  (n : nat) (chunk : bytes * Z) :
  0 < chunksize ->
  nth_error (chunk_stream chunksize infile) n = Some chunk ->
  snd chunk = Z.of_nat n * chunksize /\
  fst chunk = firstn (Z.to_nat chunksize) (skipn (n * Z.to_nat chunksize) infile).
Proof.
  intros Hc. unfold chunk_stream.
  destruct (backup_loop record_chunk (fun chunk0 => chunk0) chunksize 0%Q
              (S (length infile)) infile 0) as [[chunks r]|] eqn:Hloop;
    [|destruct n; discriminate].
  intros Hnth.
  exact (chunk_loop_offsets chunksize 0%Q _ Hc _ _ _ _ _ _ Hloop Hnth).
Qed.

Lemma chunk_stream_nth_witness :
  0 < 3 /\
  nth_error (chunk_stream 3 [x41; x42; x43; x44; x45]) 1 = Some ([x44; x45], 3) /\
  snd ([x44; x45], 3) = Z.of_nat 1 * 3 /\
  fst ([x44; x45], 3)
  = firstn (Z.to_nat 3) (skipn (1 * Z.to_nat 3) [x41; x42; x43; x44; x45]).
Proof.
  assert (nth_error (chunk_stream 3 [x41; x42; x43; x44; x45]) 1
          = Some ([x44; x45], 3)) as H by (vm_compute; reflexivity).
  split; [lia|]. split; [exact H|].
  apply (chunk_stream_nth 3 [x41; x42; x43; x44; x45] 1 ([x44; x45], 3));
    [lia | exact H].
Defined.

(** X14: [run_backup] comes to an end for every chunk size and every
    file: the loop never runs without consuming input. With a chunk size
    of 0 the run ends in [ZeroDivisionError] before anything is logged or
    exported. *)
Theorem run_backup_terminates {Code : Type} (encodefunc : bytes -> Code)
  (chunksize : Z) (infile : bytes) :
  exists run,
    run_backup encodefunc chunksize infile = Some run /\
    (chunksize = 0 -> run = mkrun None [] (Raise ZeroDivisionError)).
Proof.
  unfold run_backup, run_backup_with, true_div.
  destruct (Z.eqb_spec chunksize 0) as [->|Hnz].
  - eexists. split; reflexivity.
  - destruct (backup_loop_total bytes Code frame_data_func encodefunc chunksize
                (inject_Z (Z.of_nat (length infile)) / inject_Z chunksize + 1)%Q
                (S (length infile)) infile 0 ltac:(lia)) as [[codes r] Hr].
    rewrite Hr. eexists. split; [reflexivity|]. intros ->. congruence.
Qed.

(** * Further properties of [run_restore] *)

(** X15: applying the same decoded frame a second time leaves the output
    file as the first application left it. *)
Theorem place_twice (outfile outfile1 : file) (frame : bytes * Z) :
  place outfile frame = Ok outfile1 ->
  exists outfile2,
    place outfile1 frame = Ok outfile2 /\ content outfile2 = content outfile1.
Proof. apply place_idempotent. Qed.

Lemma place_twice_witness :
  place (mkfile [x41] 0) ([x42; x43], 2) = Ok (mkfile [x41; x00; x42; x43] 4) /\
  exists outfile2,
    place (mkfile [x41; x00; x42; x43] 4) ([x42; x43], 2) = Ok outfile2 /\
    content outfile2 = content (mkfile [x41; x00; x42; x43] 4).
Proof.
  assert (place (mkfile [x41] 0) ([x42; x43], 2)
          = Ok (mkfile [x41; x00; x42; x43] 4)) as H by (vm_compute; reflexivity).
  split; [exact H|].
  exact (place_twice (mkfile [x41] 0) (mkfile [x41; x00; x42; x43] 4)
           ([x42; x43], 2) H).
Defined.

(** X16: the seek and write of lines 165-166 on a file: afterwards the
    file holds the payload at the position (the last write wins over what
    was there), every other byte it held is unchanged, and it has not
    become shorter. *)
Theorem place_contract
  (outfile outfile' : file) (bindata : bytes) (position : Z) :
  place outfile (bindata, position) = Ok outfile' ->
  firstn (length bindata) (skipn (Z.to_nat position) (content outfile')) = bindata /\
  (forall i, (i < length (content outfile))%nat ->
     ~ (Z.to_nat position <= i < Z.to_nat position + length bindata)%nat ->
     nth_error (content outfile') i = nth_error (content outfile) i) /\
  (length (content outfile) <= length (content outfile'))%nat.
Proof.
  unfold place, seek.
  destruct (Z.ltb_spec position 0) as [?|Hpos]; [discriminate|].
  cbn [bind]. intros [= <-].
  destruct bindata as [|b bindata].
  - cbn [write content length firstn].
    split; [reflexivity|]. split; [intros; reflexivity | lia].
  - set (p := b :: bindata). set (k := Z.to_nat position).
    destruct (write_spec (content outfile) k p ltac:(discriminate))
      as (Hlen & Hin & Hout). cbv zeta in Hlen, Hin, Hout.
    change (mkfile (content outfile) k)
      with {| content := content outfile; pos := k |} in *.
    split; [|split; [exact Hout | lia]].
    apply nth_error_ext. intros i.
    rewrite nth_error_firstn, nth_error_skipn.
    destruct (Nat.ltb_spec i (length p)) as [Hi|Hi].
    + rewrite Hin by lia. f_equal. lia.
    + symmetry. apply nth_error_None. exact Hi.
Qed.

Lemma place_contract_witness :
  place (mkfile [x41; x42; x43] 3) ([x44], 1) = Ok (mkfile [x41; x44; x43] 2) /\
  firstn (length [x44]) (skipn (Z.to_nat 1) (content (mkfile [x41; x44; x43] 2)))
    = [x44] /\
  (forall i, (i < length (content (mkfile [x41; x42; x43] 3)))%nat ->
     ~ (Z.to_nat 1 <= i < Z.to_nat 1 + length [x44])%nat ->
     nth_error (content (mkfile [x41; x44; x43] 2)) i
     = nth_error (content (mkfile [x41; x42; x43] 3)) i) /\
  (length (content (mkfile [x41; x42; x43] 3))
   <= length (content (mkfile [x41; x44; x43] 2)))%nat.
Proof.
  assert (place (mkfile [x41; x42; x43] 3) ([x44], 1)
          = Ok (mkfile [x41; x44; x43] 2)) as H by (vm_compute; reflexivity).
  split; [exact H|].
  exact (place_contract (mkfile [x41; x42; x43] 3) (mkfile [x41; x44; x43] 2)
           [x44] 1 H).
Defined.

(** X17: chunks of a file written in any order, some of them more than
    once and some not at all, leave a file that is no longer than the
    original and holds the original's bytes wherever a chunk was
    written. *)
Theorem restore_partial
  (chunksize : Z) (infile : bytes) (frames : list (bytes * Z)) :
  0 < chunksize ->
  (forall frame, In frame frames -> In frame (chunk_stream chunksize infile)) ->
  exists outfile,
    place_all frames open_wb = Ok outfile /\
    (length (content outfile) <= length infile)%nat /\
    forall i, covered frames i ->
              nth_error (content outfile) i = nth_error infile i.
Proof.
  intros Hc Hsub.
  destruct (chunk_stream_spec chunksize infile Hc) as [Hslices _].
  destruct (place_all_agrees infile frames
              (fun fr Hin => Hslices fr (Hsub fr Hin))
              open_wb [] (agrees_open_wb infile))
    as (outfile & Hall & Hsize & Hnth).
  exists outfile. split; [exact Hall|]. split; [exact Hsize|].
  intros i Hcov. apply Hnth. rewrite app_nil_r. exact Hcov.
Qed.

Lemma restore_partial_witness :
  let infile := [x41; x42; x43; x44; x45; x46] in
  let frames := [([x45; x46], 4); ([x41; x42], 0); ([x45; x46], 4)] in
  0 < 2 /\
  (forall frame, In frame frames -> In frame (chunk_stream 2 infile)) /\
  exists outfile,
    place_all frames open_wb = Ok outfile /\
    (length (content outfile) <= length infile)%nat /\
    forall i, covered frames i ->
              nth_error (content outfile) i = nth_error infile i.
Proof.
  intros infile frames.
  assert (forall frame, In frame frames -> In frame (chunk_stream 2 infile)) as H.
  { intros frame [<-|[<-|[<-|[]]]]; vm_compute; tauto. }
  split; [lia|]. split; [exact H|].
  apply (restore_partial 2 infile frames); [lia | exact H].
Defined.

(** X18: how the scanned codes are grouped into images plays no part: two
    imports whose codes, image after image, form the same sequence make
    [run_restore] end in the same way with the same file. *)
Theorem run_restore_grouping {Image Code : Type}
  (scan_codes : Image -> list Code) (decodefunc : Code -> result bytes)
  (importer importer' : list Image) :
  concat (map scan_codes importer) = concat (map scan_codes importer') ->
  run_restore scan_codes decodefunc importer
  = run_restore scan_codes decodefunc importer'.
Proof.
  intros H. unfold run_restore.
  rewrite !restore_images_concat, H. reflexivity.
Qed.

Lemma run_restore_grouping_witness :
  let scan := fun image : list bytes => image in
  let decode := fun frame : bytes => Ok frame in
  concat (map scan [[frame_of [x41] 0; frame_of [x42] 1]; []])
  = concat (map scan [[frame_of [x41] 0]; [frame_of [x42] 1]]) /\
  run_restore scan decode [[frame_of [x41] 0; frame_of [x42] 1]; []]
  = run_restore scan decode [[frame_of [x41] 0]; [frame_of [x42] 1]].
Proof.
  intros scan decode. split; [reflexivity|].
  apply (run_restore_grouping scan decode
           [[frame_of [x41] 0; frame_of [x42] 1]; []]
           [[frame_of [x41] 0]; [frame_of [x42] 1]]).
  reflexivity.
Defined.

Lemma place_all_ok (frames : list (bytes * Z)) (outfile : file) :
  (forall frame, In frame frames -> 0 <= snd frame) ->
  exists outfile', place_all frames outfile = Ok outfile'.
Proof.
  revert outfile. induction frames as [|[bindata position] rest IH];
    intros outfile Hpos.
  - eexists. reflexivity.
  - cbn [place_all]. unfold place at 1, seek.
    pose proof (Hpos (bindata, position) (or_introl eq_refl)) as H0.
    cbn [snd] in H0. destruct (Z.ltb_spec position 0); [lia|].
    cbn [bind]. apply IH. intros frame Hin. apply Hpos. right. exact Hin.
Qed.

(** X19: when the codes scanned are the encoded frames of a list of
    (payload, offset) pairs with offsets of 32 bits, whatever the payloads
    and however the ranges overlap, and the text decoding undoes the text
    encoding, [run_restore] ends normally and the file it leaves is the
    one the positioned writes of the pairs, taken in order, produce. *)
Theorem run_restore_frames {Image Code : Type}
  (scan_codes : Image -> list Code)
  (encodefunc : bytes -> Code) (decodefunc : Code -> result bytes)
  (importer : list Image) (frames : list (bytes * Z)) :
  (forall frame, decodefunc (encodefunc frame) = Ok frame) ->
  (forall frame, In frame frames -> 0 <= snd frame < 2 ^ 32) ->
  concat (map scan_codes importer)
  = map (fun frame => encodefunc (frame_of (fst frame) (snd frame))) frames ->
  exists outfile,
    place_all frames open_wb = Ok outfile /\
    run_restore scan_codes decodefunc importer = (content outfile, Ok tt).
Proof.
  intros Hdec Hrange Hcodes.
  destruct (place_all_ok frames open_wb) as [outfile Hall].
  { intros frame Hin. apply Hrange, Hin. }
  exists outfile. split; [exact Hall|].
  unfold run_restore.
  rewrite restore_images_concat, Hcodes.
  rewrite (restore_codes_frames Code encodefunc decodefunc Hdec
             frames open_wb outfile Hrange Hall).
  reflexivity.
Qed.

Lemma run_restore_frames_witness :
  let scan := fun image : list bytes => image in
  let encode := fun frame : bytes => frame in
  let decode := fun frame : bytes => Ok frame in
  let frames := [([x41; x42], 1); ([x43], 1)] in
  (forall frame, decode (encode frame) = Ok frame) /\
  (forall frame, In frame frames -> 0 <= snd frame < 2 ^ 32) /\
  concat (map scan [[frame_of [x41; x42] 1]; [frame_of [x43] 1]])
  = map (fun frame => encode (frame_of (fst frame) (snd frame))) frames /\
  exists outfile,
    place_all frames open_wb = Ok outfile /\
    run_restore scan decode [[frame_of [x41; x42] 1]; [frame_of [x43] 1]]
    = (content outfile, Ok tt).
Proof.
  intros scan encode decode frames.
  assert (forall frame, In frame frames -> 0 <= snd frame < 2 ^ 32) as Hr.
  { intros frame [<-|[<-|[]]]; cbn [snd]; lia. }
  split; [reflexivity|]. split; [exact Hr|]. split; [reflexivity|].
  apply (run_restore_frames scan encode decode
           [[frame_of [x41; x42] 1]; [frame_of [x43] 1]] frames);
    [reflexivity | exact Hr | reflexivity].
Defined.

(** * The empty input *)

(** X21: [unframe_data] raises [IndexError], not [UnframeError], on the
    empty input and on no other: a caller that handles [UnframeError]
    alone does not handle an empty scanned string. *)
Theorem unframe_data_index_error (bindata : bytes) :
  unframe_data bindata = Raise IndexError <-> bindata = [].
Proof.
  split; [|intros ->; reflexivity].
  destruct bindata as [|b0 rest]; [reflexivity|].
  rewrite unframe_data_cons. cbv zeta.
  destruct (negb (Z.land (byte_val b0) 0xb0 =? 0xb0)); [discriminate|].
  destruct (Z.land (byte_val b0) 0xf =? 1); [|discriminate].
  destruct (negb _); discriminate.
Qed.

(** * The run with every step that can raise *)

Lemma full_read_served (alloc_limit : Z) (infile : bytes) (n : Z) :
  0 < n -> n < 2 ^ 63 -> n <= alloc_limit ->
  Full.read alloc_limit infile n = Ok (read infile n).
Proof.
  intros Hpos Hidx Halloc. unfold Full.read, read.
  destruct (Z.ltb_spec n (- 2 ^ 63)); [lia|].
  destruct (Z.leb_spec (2 ^ 63) n); [lia|]. cbn [orb].
  destruct (Z.ltb_spec n (-1)); [lia|].
  destruct (Z.eqb_spec n (-1)); [lia|].
  destruct (Z.ltb_spec alloc_limit n); [lia|].
  destruct (Z.ltb_spec n 0); [lia|]. reflexivity.
Qed.

(** A read of a positive size that is served returns what [read] says. *)
Lemma full_read_positive (alloc_limit : Z) (infile : bytes) (n : Z)
  (bindata infile' : bytes) :
  0 < n ->
  Full.read alloc_limit infile n = Ok (bindata, infile') ->
  read infile n = (bindata, infile').
Proof.
  intros Hpos. unfold Full.read, read.
  destruct ((n <? - 2 ^ 63) || (2 ^ 63 <=? n)); [discriminate|].
  destruct (Z.ltb_spec n (-1)); [lia|].
  destruct (Z.eqb_spec n (-1)); [lia|].
  destruct (alloc_limit <? n); [discriminate|].
  destruct (Z.ltb_spec n 0); [lia|].
  intros [= <- <-]. reflexivity.
Qed.

Lemma chunk_stream_loop (chunksize : Z) (infile : bytes) :
  0 < chunksize ->
  backup_loop record_chunk (fun chunk => chunk) chunksize 0%Q
    (S (length infile)) infile 0
  = Some (chunk_stream chunksize infile, Ok tt).
Proof.
  intros Hc. unfold chunk_stream.
  destruct (chunk_loop_spec chunksize 0%Q (S (length infile)) Hc infile 0
              ltac:(lia)) as (chunks & Hloop & _).
  change (Z.of_nat 0) with 0 in Hloop. rewrite Hloop. reflexivity.
Qed.

Section FullFacts.

Variables Code QR Exporter : Type.
Variable alloc_limit : Z.
Variable encodefunc : bytes -> Code.
Variable create : Code -> result QR.
Variable PngDirExporter : result Exporter.
Variable PDFExporter : Q -> result Exporter.
Variable add_qr : Exporter -> QR -> result Exporter.
Variable finish : Exporter -> bytes -> result Exporter.

Let loop := Full.backup_loop alloc_limit encodefunc create add_qr.
Let export := Full.export encodefunc create add_qr.
Let export_all := Full.export_all encodefunc create add_qr.
Let run_backup :=
  Full.run_backup alloc_limit encodefunc create PngDirExporter PDFExporter
    add_qr finish.
Let setup_exporter := Full.setup_exporter PngDirExporter PDFExporter.

(** However the loop ends, the exporter has been given the frames of the
    first [n] chunks of the split, in order, and nothing else; and the
    loop ends normally only after the last chunk, with every byte of the
    input hashed. *)
Lemma full_loop_prefix (chunksize : Z) (qr_count qr_count' : Q) (fuel : nat) :
  0 < chunksize ->
  forall (infile : bytes) (sizesofar : Z) (exporter : Exporter)
         (inputhash : bytes) (chunks : list (bytes * Z)) (r0 : result unit)
         (exporter' : Exporter) (inputhash' : bytes) (r : result unit),
  0 <= sizesofar ->
  backup_loop record_chunk (fun chunk => chunk) chunksize qr_count'
    fuel infile sizesofar = Some (chunks, r0) ->
  loop chunksize qr_count fuel infile sizesofar exporter inputhash
    = Some (exporter', inputhash', r) ->
  exists n,
    (n <= length chunks)%nat /\
    export_all exporter (firstn n chunks) = Ok exporter' /\
    (forall chunk, In chunk (firstn n chunks) -> 0 <= snd chunk < 2 ^ 32) /\
    (r = Ok tt -> n = length chunks /\ inputhash' = inputhash ++ infile).
Proof.
  intros Hc. induction fuel as [|fuel IH];
    intros infile sizesofar exporter inputhash chunks r0 exporter' inputhash' r
           Hs Hideal Hfull; [discriminate|].
  unfold loop in Hfull. cbn [backup_loop Full.backup_loop] in Hideal, Hfull.
  assert (exists n : nat,
            (n <= length chunks)%nat /\
            export_all exporter (firstn n chunks) = Ok exporter /\
            (forall chunk, In chunk (firstn n chunks) -> 0 <= snd chunk < 2 ^ 32))
    as Hzero by (exists 0%nat; split; [lia|]; split; [reflexivity|]; intros ? []).
  destruct (Full.read alloc_limit infile chunksize) as [[bindata infile']|e]
    eqn:Hread.
  2:{ injection Hfull as <- <- <-.
      destruct Hzero as (n & ? & ? & ?). exists n.
      repeat (split; [assumption|]). intros Hr. discriminate Hr. }
  apply (full_read_positive _ _ _ _ _ Hc) in Hread.
  rewrite Hread in Hideal.
  destruct (read_inv _ _ _ _ Hread) as (Happ & _ & Hnil & _).
  destruct bindata as [|b bindata].
  - injection Hideal as <- _. injection Hfull as <- <- <-.
    exists 0%nat. split; [cbn; lia|]. split; [reflexivity|].
    split; [intros ? []|]. intros _. split; [reflexivity|].
    rewrite (Hnil Hc eq_refl), app_nil_r. reflexivity.
  - unfold record_chunk at 1 in Hideal.
    set (chunk0 := b :: bindata) in *.
    destruct (backup_loop record_chunk (fun chunk => chunk) chunksize qr_count'
                fuel infile' (sizesofar + Z.of_nat (length chunk0)))
      as [[chunks' r']|] eqn:Hideal'; [|discriminate].
    injection Hideal as <- _.
    destruct (frame_data_func chunk0 qr_count sizesofar) as [frame|e] eqn:Hframe.
    2:{ injection Hfull as <- <- <-.
        destruct Hzero as (n & ? & ? & ?). exists n.
        repeat (split; [assumption|]). intros Hr. discriminate Hr. }
    unfold frame_data_func in Hframe.
    pose proof (v1_ok_range _ _ _ _ Hframe) as Hrange.
    rewrite v1_in_range in Hframe by exact Hrange. injection Hframe as <-.
    destruct (Full.export encodefunc create add_qr exporter
                (frame_of chunk0 sizesofar)) as [exporter1|e] eqn:Hexport.
    2:{ injection Hfull as <- <- <-.
        destruct Hzero as (n & ? & ? & ?). exists n.
        repeat (split; [assumption|]). intros Hr. discriminate Hr. }
    destruct (IH infile' (sizesofar + Z.of_nat (length chunk0)) exporter1
                (inputhash ++ chunk0) chunks' r' exporter' inputhash' r
                ltac:(lia) Hideal' Hfull)
      as (n & Hn & Hall & Hfit & Hok).
    exists (S n). cbn [length firstn]. split; [lia|]. split; [|split].
    + unfold export_all. cbn [Full.export_all fst snd].
      rewrite Hexport. cbn [bind]. exact Hall.
    + intros chunk [<-|Hin]; [exact Hrange | exact (Hfit chunk Hin)].
    + intros Hr. destruct (Hok Hr) as [-> ->]. split; [reflexivity|].
      rewrite Happ, app_assoc. reflexivity.
Qed.

(** When every read is served, every offset fits in 32 bits and every
    frame of the split is exported, the loop ends normally. *)
Lemma full_loop_normal (chunksize : Z) (qr_count qr_count' : Q) (fuel : nat) :
  0 < chunksize -> chunksize < 2 ^ 63 -> chunksize <= alloc_limit ->
  forall (infile : bytes) (sizesofar : Z) (exporter : Exporter)
         (inputhash : bytes) (chunks : list (bytes * Z)) (r0 : result unit)
         (exporter' : Exporter),
  0 <= sizesofar ->
  backup_loop record_chunk (fun chunk => chunk) chunksize qr_count'
    fuel infile sizesofar = Some (chunks, r0) ->
  (forall chunk, In chunk chunks -> snd chunk < 2 ^ 32) ->
  export_all exporter chunks = Ok exporter' ->
  loop chunksize qr_count fuel infile sizesofar exporter inputhash
    = Some (exporter', inputhash ++ infile, Ok tt).
Proof.
  intros Hc Hidx Halloc. induction fuel as [|fuel IH];
    intros infile sizesofar exporter inputhash chunks r0 exporter'
           Hs Hideal Hfit Hall; [discriminate|].
  unfold loop. cbn [backup_loop Full.backup_loop] in Hideal |- *.
  rewrite full_read_served by assumption.
  destruct (read infile chunksize) as [bindata infile'] eqn:Hread.
  destruct (read_inv _ _ _ _ Hread) as (Happ & _ & Hnil & _).
  destruct bindata as [|b bindata].
  - injection Hideal as <- _. injection Hall as <-.
    rewrite (Hnil Hc eq_refl), app_nil_r. reflexivity.
  - unfold record_chunk at 1 in Hideal.
    set (chunk0 := b :: bindata) in *.
    destruct (backup_loop record_chunk (fun chunk => chunk) chunksize qr_count'
                fuel infile' (sizesofar + Z.of_nat (length chunk0)))
      as [[chunks' r']|] eqn:Hideal'; [|discriminate].
    injection Hideal as <- _.
    pose proof (Hfit (chunk0, sizesofar) (or_introl eq_refl)) as Hfit0.
    cbn [snd] in Hfit0.
    unfold frame_data_func. rewrite v1_in_range by lia.
    unfold export_all in Hall. cbn [Full.export_all fst snd] in Hall.
    destruct (Full.export encodefunc create add_qr exporter
                (frame_of chunk0 sizesofar)) as [exporter1|e]; [|discriminate].
    cbn [bind] in Hall.
    fold loop.
    rewrite (IH infile' (sizesofar + Z.of_nat (length chunk0)) exporter1
               (inputhash ++ chunk0) chunks' r' exporter'
               ltac:(lia) Hideal'
               (fun chunk Hin => Hfit chunk (or_intror Hin)) Hall).
    rewrite Happ, app_assoc. reflexivity.
Qed.

End FullFacts.

(** A read that is served returns what [read] says, for every size. *)
Lemma full_read_inv (alloc_limit : Z) (infile : bytes) (n : Z)
  (bindata infile' : bytes) :
  Full.read alloc_limit infile n = Ok (bindata, infile') ->
  read infile n = (bindata, infile').
Proof.
  unfold Full.read, read.
  destruct ((n <? - 2 ^ 63) || (2 ^ 63 <=? n)); [discriminate|].
  destruct (Z.ltb_spec n (-1)); [discriminate|].
  destruct (Z.eqb_spec n (-1)) as [->|Hn]; [intros [= <- <-]; reflexivity|].
  destruct (alloc_limit <? n); [discriminate|].
  destruct (Z.ltb_spec n 0); [lia|].
  intros [= <- <-]. reflexivity.
Qed.

Section FullRun.

Variables Code QR Exporter : Type.
Variable alloc_limit : Z.
Variable encodefunc : bytes -> Code.
Variable create : Code -> result QR.
Variable PngDirExporter : result Exporter.
Variable PDFExporter : Q -> result Exporter.
Variable add_qr : Exporter -> QR -> result Exporter.
Variable finish : Exporter -> bytes -> result Exporter.

Let loop := Full.backup_loop alloc_limit encodefunc create add_qr.
Let export := Full.export encodefunc create add_qr.
Let export_all := Full.export_all encodefunc create add_qr.
Let run_backup :=
  Full.run_backup alloc_limit encodefunc create PngDirExporter PDFExporter
    add_qr finish.
Let setup_exporter := Full.setup_exporter PngDirExporter PDFExporter.

(** The loop ends for every chunk size: each pass that does not end it
    consumes input. *)
Lemma full_loop_total (chunksize : Z) (qr_count : Q) (fuel : nat) :
  forall (infile : bytes) (sizesofar : Z) (exporter : Exporter)
         (inputhash : bytes),
  (length infile < fuel)%nat ->
  exists r, loop chunksize qr_count fuel infile sizesofar exporter inputhash
            = Some r.
Proof.
  induction fuel as [|fuel IH]; intros infile sizesofar exporter inputhash Hfuel;
    [lia|].
  unfold loop. cbn [Full.backup_loop].
  destruct (Full.read alloc_limit infile chunksize) as [[bindata infile']|e]
    eqn:Hread; [|eexists; reflexivity].
  apply full_read_inv in Hread.
  destruct (read_inv _ _ _ _ Hread) as (_ & Hlt & _).
  destruct bindata as [|b bindata]; [eexists; reflexivity|].
  destruct (frame_data_func (b :: bindata) qr_count sizesofar) as [frame|e];
    [|eexists; reflexivity].
  destruct (Full.export encodefunc create add_qr exporter frame)
    as [exporter1|e]; [|eexists; reflexivity].
  apply IH. specialize (Hlt ltac:(discriminate)). lia.
Qed.

(** A run that ends normally, read backwards. *)
Lemma full_run_ended_ok (chunksize : Z) (name : string) (infile : bytes)
  (run : Full.run Exporter) :
  0 < chunksize ->
  run_backup chunksize name infile = Some run ->
  Full.ended run = Ok tt ->
  exists exporter0 exporter1 exporter2,
    setup_exporter name
      (inject_Z (Z.of_nat (length infile)) / inject_Z chunksize + 1)%Q
      = Ok exporter0 /\
    export_all exporter0 (chunk_stream chunksize infile) = Ok exporter1 /\
    finish exporter1 infile = Ok exporter2 /\
    Full.exporter_left run = Some exporter2 /\
    forall chunk, In chunk (chunk_stream chunksize infile) ->
                  0 <= snd chunk < 2 ^ 32.
Proof.
  intros Hc Hrun Hok.
  unfold run_backup, Full.run_backup, true_div in Hrun.
  destruct (Z.eqb_spec chunksize 0) as [Hz0|Hnz0]; [lia|].
  fold setup_exporter in Hrun.
  destruct (setup_exporter name _) as [exporter0|e] eqn:Hsetup;
    [|injection Hrun as <-; discriminate Hok].
  fold loop in Hrun.
  destruct (loop chunksize _ (S (length infile)) infile 0 exporter0 [])
    as [[[exporter1 inputhash] [[]|e]]|] eqn:Hloop;
    [| injection Hrun as <-; discriminate Hok | discriminate].
  destruct (full_loop_prefix Code QR Exporter alloc_limit encodefunc create
              add_qr chunksize _ 0%Q _ Hc infile 0 exporter0 []
              (chunk_stream chunksize infile) (Ok tt) exporter1 inputhash (Ok tt)
              ltac:(lia) (chunk_stream_loop chunksize infile Hc) Hloop)
    as (n & _ & Hall & Hfit & Hend).
  destruct (Hend eq_refl) as [-> ->]. rewrite firstn_all in Hall, Hfit.
  cbn [app] in Hrun.
  destruct (finish exporter1 infile) as [exporter2|e] eqn:Hfinish;
    [|injection Hrun as <-; discriminate Hok].
  injection Hrun as <-.
  exists exporter0, exporter1, exporter2. repeat split; try assumption;
    try reflexivity; apply Hfit; assumption.
Qed.

(** X9: a run of [run_backup] with a positive chunk size that ends
    normally has exported the frame of every chunk of the file, in order,
    each with an offset below [2^32], and has handed [exporter.finish] a
    digest fed with exactly the bytes of the file. *)
Theorem run_backup_normal_end (chunksize : Z) (name : string) (infile : bytes)
  (run : Full.run Exporter) :
  0 < chunksize ->
  run_backup chunksize name infile = Some run ->
  Full.ended run = Ok tt ->
  exists exporter0 exporter1 exporter2,
    setup_exporter name
      (inject_Z (Z.of_nat (length infile)) / inject_Z chunksize + 1)%Q
      = Ok exporter0 /\
    export_all exporter0 (chunk_stream chunksize infile) = Ok exporter1 /\
    finish exporter1 infile = Ok exporter2 /\
    Full.exporter_left run = Some exporter2 /\
    forall chunk, In chunk (chunk_stream chunksize infile) ->
                  0 <= snd chunk < 2 ^ 32.
Proof. apply full_run_ended_ok. Qed.

(** X11: every run of [run_backup] with a positive chunk size, however
    it ends: the exporter has been given the frames of the first [n]
    chunks of the file, in order, each with an offset below [2^32], and
    nothing else. The run ends normally only when [n] is the number of
    chunks and [exporter.finish] has returned on the digest of the whole
    file; when it ends with an exception the exporter is left as the last
    exported frame left it. *)
Theorem run_backup_exports_prefix (chunksize : Z) (name : string)
  (infile : bytes) (exporter0 : Exporter) :
  0 < chunksize ->
  setup_exporter name
    (inject_Z (Z.of_nat (length infile)) / inject_Z chunksize + 1)%Q
    = Ok exporter0 ->
  exists run n exporter1,
    run_backup chunksize name infile = Some run /\
    (n <= length (chunk_stream chunksize infile))%nat /\
    export_all exporter0 (firstn n (chunk_stream chunksize infile))
      = Ok exporter1 /\
    (forall chunk, In chunk (firstn n (chunk_stream chunksize infile)) ->
                   0 <= snd chunk < 2 ^ 32) /\
    match Full.ended run with
    | Ok _ =>
        n = length (chunk_stream chunksize infile) /\
        exists exporter2,
          finish exporter1 infile = Ok exporter2 /\
          Full.exporter_left run = Some exporter2
    | Raise _ => Full.exporter_left run = Some exporter1
    end.
Proof.
  intros Hc Hsetup.
  unfold run_backup, Full.run_backup, true_div.
  destruct (Z.eqb_spec chunksize 0) as [Hz0|Hnz0]; [lia|].
  fold setup_exporter. rewrite Hsetup. fold loop.
  destruct (full_loop_total chunksize
              (inject_Z (Z.of_nat (length infile)) / inject_Z chunksize + 1)%Q
              (S (length infile)) infile 0 exporter0 [] ltac:(lia))
    as [[[exporter1 inputhash] r] Hloop].
  rewrite Hloop.
  destruct (full_loop_prefix Code QR Exporter alloc_limit encodefunc create
              add_qr chunksize _ 0%Q _ Hc infile 0 exporter0 []
              (chunk_stream chunksize infile) (Ok tt) exporter1 inputhash r
              ltac:(lia) (chunk_stream_loop chunksize infile Hc) Hloop)
    as (n & Hn & Hall & Hfit & Hend).
  destruct r as [[]|e].
  - destruct (Hend eq_refl) as [-> ->]. cbn [app].
    destruct (finish exporter1 infile) as [exporter2|e] eqn:Hfinish.
    + eexists _, (length (chunk_stream chunksize infile)), exporter1.
      split; [reflexivity|].
      repeat (split; [assumption|]). cbn [Full.ended Full.exporter_left].
      split; [reflexivity|]. exists exporter2. split; [assumption|reflexivity].
    + eexists _, (length (chunk_stream chunksize infile)), exporter1.
      split; [reflexivity|].
      repeat (split; [assumption|]). reflexivity.
  - eexists _, n, exporter1. split; [reflexivity|].
    repeat (split; [assumption|]). reflexivity.
Qed.

(** X12: a normal run. When the chunk size is positive, index-sized and
    within what a read can allocate, the file has at most [2^32] bytes,
    the exporter is set up, the frame of every chunk is accepted by
    [pyqrcode.create] and by the exporter, and [exporter.finish] returns,
    [run_backup] ends normally, logs [size // chunksize + 1] as the
    total, and has exported [ceil(size / chunksize)] codes. *)
Theorem run_backup_normal_run (chunksize : Z) (name : string) (infile : bytes)
  (exporter0 exporter1 exporter2 : Exporter) :
  0 < chunksize -> chunksize < 2 ^ 63 -> chunksize <= alloc_limit ->
  Z.of_nat (length infile) <= 2 ^ 32 ->
  setup_exporter name
    (inject_Z (Z.of_nat (length infile)) / inject_Z chunksize + 1)%Q
    = Ok exporter0 ->
  export_all exporter0 (chunk_stream chunksize infile) = Ok exporter1 ->
  finish exporter1 infile = Ok exporter2 ->
  run_backup chunksize name infile
    = Some (Full.mk_run (Some (Z.of_nat (length infile) / chunksize + 1))
              (Some exporter2) (Ok tt)) /\
  Z.of_nat (length (chunk_stream chunksize infile))
    = (Z.of_nat (length infile) + chunksize - 1) / chunksize.
Proof.
  intros Hc Hidx Halloc Hsize Hsetup Hall Hfinish.
  pose proof (chunk_stream_loop chunksize infile Hc) as Hideal.
  split.
  - unfold run_backup, Full.run_backup, true_div.
    destruct (Z.eqb_spec chunksize 0) as [Hz0|Hnz0]; [lia|].
    fold setup_exporter. rewrite Hsetup. fold loop.
    rewrite (full_loop_normal Code QR Exporter alloc_limit encodefunc create
               add_qr chunksize _ 0%Q _ Hc Hidx Halloc infile 0 exporter0 []
               (chunk_stream chunksize infile) (Ok tt) exporter1
               ltac:(lia) Hideal).
    + cbn [app]. rewrite Hfinish, format_d_qr_count by lia. reflexivity.
    + intros chunk Hin.
      pose proof (chunk_stream_offset_range chunksize infile chunk Hc Hin). lia.
    + exact Hall.
  - apply (chunk_loop_partition chunksize 0%Q _ Hc _ _ _ _ Hideal).
Qed.

(** X22: the total logged against the codes exported. When a run with a
    positive chunk size on a file of at most [2^32] bytes ends normally,
    the exporter has been given the frame of every chunk, and the total
    that was logged is their number when the chunk size does not divide
    the file size, and one more when it does (the empty file
    included). *)
Theorem run_backup_total_vs_codes (chunksize : Z) (name : string)
  (infile : bytes) (run : Full.run Exporter) :
  0 < chunksize ->
  Z.of_nat (length infile) <= 2 ^ 32 ->
  run_backup chunksize name infile = Some run ->
  Full.ended run = Ok tt ->
  (exists exporter0 exporter1,
     setup_exporter name
       (inject_Z (Z.of_nat (length infile)) / inject_Z chunksize + 1)%Q
       = Ok exporter0 /\
     export_all exporter0 (chunk_stream chunksize infile) = Ok exporter1) /\
  Full.qr_total run
  = Some (Z.of_nat (length (chunk_stream chunksize infile))
          + (if Z.of_nat (length infile) mod chunksize =? 0 then 1 else 0)).
Proof.
  intros Hc Hsize Hrun Hok. split.
  - destruct (full_run_ended_ok chunksize name infile run Hc Hrun Hok)
      as (exporter0 & exporter1 & _ & Hsetup & Hall & _).
    exists exporter0, exporter1. split; assumption.
  - assert (Full.qr_total run
            = Some (Z.of_nat (length infile) / chunksize + 1)) as ->.
    { unfold run_backup, Full.run_backup, true_div in Hrun.
      destruct (Z.eqb_spec chunksize 0) as [Hz0|Hnz0]; [lia|].
      rewrite format_d_qr_count in Hrun by lia.
      destruct (Full.setup_exporter _ _ _ _); [|injection Hrun as <-; reflexivity].
      destruct (Full.backup_loop _ _ _ _ _ _ _ _ _ _ _)
        as [[[exporter1 inputhash] [[]|e]]|];
        [| injection Hrun as <-; reflexivity | discriminate].
      destruct (finish _ _); injection Hrun as <-; reflexivity. }
    destruct (chunk_loop_partition chunksize 0%Q _ Hc _ _ _ _
                (chunk_stream_loop chunksize infile Hc)) as (_ & -> & _).
    f_equal.
    set (size := Z.of_nat (length infile)).
    pose proof (Z.div_mod size chunksize ltac:(lia)) as Hdm.
    pose proof (Z.mod_pos_bound size chunksize Hc) as Hr.
    destruct (Z.eqb_spec (size mod chunksize) 0) as [Hz|Hnz].
    + rewrite <- (Z.div_unique (size + chunksize - 1) chunksize
                    (size / chunksize) (chunksize - 1)); lia.
    + rewrite <- (Z.div_unique (size + chunksize - 1) chunksize
                    (size / chunksize + 1) (size mod chunksize - 1)); lia.
Qed.

End FullRun.

Section FullEdges.

Variables Code QR Exporter : Type.
Variable alloc_limit : Z.
Variable encodefunc : bytes -> Code.
Variable create : Code -> result QR.
Variable PngDirExporter : result Exporter.
Variable PDFExporter : Q -> result Exporter.
Variable add_qr : Exporter -> QR -> result Exporter.
Variable finish : Exporter -> bytes -> result Exporter.

Let loop := Full.backup_loop alloc_limit encodefunc create add_qr.
Let export := Full.export encodefunc create add_qr.
Let export_all := Full.export_all encodefunc create add_qr.
Let run_backup :=
  Full.run_backup alloc_limit encodefunc create PngDirExporter PDFExporter
    add_qr finish.
Let setup_exporter := Full.setup_exporter PngDirExporter PDFExporter.


(** X23: [run_backup] comes to an end for every chunk size, every
    exporter name and every file, whatever the reads, the QR creation and
    the exporter do. With a chunk size of 0 it ends in
    [ZeroDivisionError] before anything is logged, set up or read. *)
Theorem run_backup_full_terminates (chunksize : Z) (name : string)
  (infile : bytes) :
  exists run,
    run_backup chunksize name infile = Some run /\
    (chunksize = 0 -> run = Full.mk_run None None (Raise ZeroDivisionError)).
Proof.
  unfold run_backup, Full.run_backup, true_div.
  destruct (Z.eqb_spec chunksize 0) as [->|Hnz].
  - eexists. split; reflexivity.
  - destruct (Full.setup_exporter _ _ _ _) as [exporter0|e];
      [|eexists; split; [reflexivity | intros; congruence]].
    destruct (full_loop_total Code QR Exporter alloc_limit encodefunc create
                add_qr chunksize
                (inject_Z (Z.of_nat (length infile)) / inject_Z chunksize + 1)%Q
                (S (length infile)) infile 0 exporter0 [] ltac:(lia))
      as [[[exporter1 inputhash] r] Hloop].
    rewrite Hloop. destruct r as [[]|e].
    + destruct (finish exporter1 inputhash);
        eexists; (split; [reflexivity | intros; congruence]).
    + eexists. split; [reflexivity | intros; congruence].
Qed.

(** The loop stops at the first frame that is not exported. *)
Lemma full_loop_export_error (chunksize : Z) (qr_count qr_count' : Q) (fuel : nat) :
  0 < chunksize -> chunksize < 2 ^ 63 -> chunksize <= alloc_limit ->
  forall (infile : bytes) (sizesofar : Z) (exporter : Exporter)
         (inputhash : bytes) (pre : list (bytes * Z)) (chunk : bytes * Z)
         (post : list (bytes * Z)) (r0 : result unit)
         (exporter1 : Exporter) (e : exn),
  0 <= sizesofar ->
  backup_loop record_chunk (fun c => c) chunksize qr_count'
    fuel infile sizesofar = Some (pre ++ chunk :: post, r0) ->
  (forall c, In c (pre ++ [chunk]) -> snd c < 2 ^ 32) ->
  export_all exporter pre = Ok exporter1 ->
  export exporter1 (frame_of (fst chunk) (snd chunk)) = Raise e ->
  exists inputhash',
    loop chunksize qr_count fuel infile sizesofar exporter inputhash
    = Some (exporter1, inputhash', Raise e).
Proof.
  intros Hc Hidx Halloc. induction fuel as [|fuel IH];
    intros infile sizesofar exporter inputhash pre chunk post r0 exporter1 e
           Hs Hideal Hfit Hall Hexport; [discriminate|].
  unfold loop. cbn [backup_loop Full.backup_loop] in Hideal |- *.
  rewrite full_read_served by assumption.
  destruct (read infile chunksize) as [bindata infile'] eqn:Hread.
  destruct bindata as [|b bindata];
    [injection Hideal as Hnil _; destruct pre; discriminate Hnil|].
  unfold record_chunk at 1 in Hideal.
  set (chunk0 := b :: bindata) in *.
  destruct (backup_loop record_chunk (fun c => c) chunksize qr_count'
              fuel infile' (sizesofar + Z.of_nat (length chunk0)))
    as [[chunks' r']|] eqn:Hideal'; [|discriminate].
  injection Hideal as Hchunks _.
  destruct pre as [|first pre]; cbn [app] in Hchunks;
    injection Hchunks as Hfirst Hrest.
  - subst chunk chunks'. cbn [fst snd] in Hexport.
    injection Hall as ->.
    pose proof (Hfit (chunk0, sizesofar) (or_introl eq_refl)) as Hfit0.
    cbn [snd] in Hfit0.
    unfold frame_data_func. rewrite v1_in_range by lia.
    unfold export in Hexport. rewrite Hexport. eexists. reflexivity.
  - subst first chunks'.
    pose proof (Hfit (chunk0, sizesofar) (or_introl eq_refl)) as Hfit0.
    cbn [snd] in Hfit0.
    unfold frame_data_func. rewrite v1_in_range by lia.
    unfold export_all in Hall. cbn [Full.export_all fst snd] in Hall.
    destruct (Full.export encodefunc create add_qr exporter
                (frame_of chunk0 sizesofar)) as [exporter'|e']; [|discriminate].
    cbn [bind] in Hall. fold loop.
    apply (IH infile' (sizesofar + Z.of_nat (length chunk0)) exporter'
             (inputhash ++ chunk0) pre chunk post r' exporter1 e
             ltac:(lia) Hideal'
             (fun c Hin => Hfit c (or_intror Hin)) Hall Hexport).
Qed.

(** X24: the first frame that [pyqrcode.create] or the exporter refuses
    ends the run with the exception they raised, and the exporter is left
    with the frames of the chunks before it: for a positive chunk size
    that every read serves and a file of at most [2^32] bytes. *)
Theorem run_backup_stops_at_export_error (chunksize : Z) (name : string)
  (infile : bytes) (pre : list (bytes * Z)) (chunk : bytes * Z)
  (post : list (bytes * Z)) (exporter0 exporter1 : Exporter) (e : exn) :
  0 < chunksize -> chunksize < 2 ^ 63 -> chunksize <= alloc_limit ->
  Z.of_nat (length infile) <= 2 ^ 32 ->
  setup_exporter name
    (inject_Z (Z.of_nat (length infile)) / inject_Z chunksize + 1)%Q
    = Ok exporter0 ->
  chunk_stream chunksize infile = pre ++ chunk :: post ->
  export_all exporter0 pre = Ok exporter1 ->
  export exporter1 (frame_of (fst chunk) (snd chunk)) = Raise e ->
  exists logged,
    run_backup chunksize name infile
    = Some (Full.mk_run logged (Some exporter1) (Raise e)).
Proof.
  intros Hc Hidx Halloc Hsize Hsetup Hstream Hall Hexport.
  pose proof (chunk_stream_loop chunksize infile Hc) as Hideal.
  rewrite Hstream in Hideal.
  unfold run_backup, Full.run_backup, true_div.
  destruct (Z.eqb_spec chunksize 0) as [Hz0|Hnz0]; [lia|].
  fold setup_exporter. rewrite Hsetup. fold loop.
  destruct (full_loop_export_error chunksize
              (inject_Z (Z.of_nat (length infile)) / inject_Z chunksize + 1)%Q
              0%Q _ Hc Hidx Halloc infile 0 exporter0 [] pre chunk post (Ok tt)
              exporter1 e ltac:(lia) Hideal) as [inputhash' Hloop];
    [| exact Hall | exact Hexport | rewrite Hloop; eexists; reflexivity].
  intros c Hin.
  assert (In c (chunk_stream chunksize infile)) as Hin'.
  { rewrite Hstream. apply in_app_iff. apply in_app_iff in Hin.
    destruct Hin as [Hin|[<-|[]]]; [left; exact Hin | right; left; reflexivity]. }
  pose proof (chunk_stream_offset_range chunksize infile c Hc Hin'). lia.
Qed.

End FullEdges.

Section FullRestore.

Variables Image Code QR Exporter : Type.
Variable alloc_limit : Z.
Variable encodefunc : bytes -> Code.
Variable create : Code -> result QR.
Variable PngDirExporter : result Exporter.
Variable PDFExporter : Q -> result Exporter.
Variable add_qr : Exporter -> QR -> result Exporter.
Variable finish : Exporter -> bytes -> result Exporter.
Variable scan_codes : Image -> list Code.
Variable decodefunc : Code -> result bytes.

(** X20: backup followed by restore. When [run_backup] with a positive
    chunk size has ended normally, the texts it handed to
    [pyqrcode.create] are the encoded frames of the chunks of the file;
    when these texts are scanned back, each once, in any order and in any
    grouping into images, and the text decoding undoes the text encoding,
    [run_restore] ends normally and leaves a file equal to the
    original. *)
Theorem backup_restore_roundtrip
  (chunksize : Z) (name : string) (infile : bytes)
  (run : Full.run Exporter) (importer : list Image) :
  0 < chunksize ->
  Full.run_backup alloc_limit encodefunc create PngDirExporter PDFExporter
    add_qr finish chunksize name infile = Some run ->
  Full.ended run = Ok tt ->
  (forall frame, decodefunc (encodefunc frame) = Ok frame) ->
  Permutation (concat (map scan_codes importer))
    (map (fun chunk => encodefunc (frame_of (fst chunk) (snd chunk)))
         (chunk_stream chunksize infile)) ->
  run_restore scan_codes decodefunc importer = (infile, Ok tt).
Proof.
  intros Hc Hrun Hok Hdec Hperm.
  destruct (full_run_ended_ok Code QR Exporter alloc_limit encodefunc create
              PngDirExporter PDFExporter add_qr finish chunksize name infile
              run Hc Hrun Hok) as (_ & _ & _ & _ & _ & _ & _ & Hrange).
  destruct (chunk_stream_spec chunksize infile Hc) as [Hslices Hcover].
  apply Permutation_map_inv in Hperm.
  destruct Hperm as (frames & Hcodes & Hperm).
  assert (forall frame, In frame frames -> In frame (chunk_stream chunksize infile))
    as Hin by (intros frame; apply Permutation_in, Permutation_sym, Hperm).
  destruct (place_all_agrees infile frames
              (fun fr H => Hslices fr (Hin fr H)) open_wb []
              (agrees_open_wb infile)) as (outfile & Hall & Hagree).
  unfold run_restore.
  rewrite restore_images_concat, Hcodes.
  rewrite (restore_codes_frames Code encodefunc decodefunc Hdec
             frames open_wb outfile); [| | exact Hall].
  - f_equal.
    apply (agrees_all_covered infile outfile (frames ++ [])); [exact Hagree|].
    intros i Hi. destruct (Hcover i Hi) as (fr & Hfr & Hr).
    exists fr. split; [|exact Hr].
    rewrite app_nil_r. apply (Permutation_in fr Hperm Hfr).
  - intros frame H. apply Hrange, Hin, H.
Qed.

End FullRestore.

(** ** The theorems above on a three-byte file *)

Lemma run_backup_normal_end_witness :
  let infile := [x41; x42; x43] in
  let run := Full.mk_run (Some 2)
               (Some [frame_of [x41; x42] 0; frame_of [x43] 2]) (Ok tt) in
  0 < 2 /\
  run_backup_keep 1024 100 2 "pngdir" infile = Some run /\
  Full.ended run = Ok tt /\
  exists exporter0 exporter1 exporter2,
    Full.setup_exporter (Ok []) (fun _ => Ok []) "pngdir"
      (inject_Z (Z.of_nat (length infile)) / inject_Z 2 + 1)%Q = Ok exporter0 /\
    Full.export_all (fun frame : bytes => frame) (create_upto 100) keep_add_qr
      exporter0 (chunk_stream 2 infile) = Ok exporter1 /\
    keep_finish exporter1 infile = Ok exporter2 /\
    Full.exporter_left run = Some exporter2 /\
    forall chunk, In chunk (chunk_stream 2 infile) -> 0 <= snd chunk < 2 ^ 32.
Proof.
  intros infile run.
  assert (run_backup_keep 1024 100 2 "pngdir" infile = Some run) as Hrun
    by (vm_compute; reflexivity).
  split; [lia|]. split; [exact Hrun|]. split; [reflexivity|].
  exact (run_backup_normal_end bytes bytes (list bytes) 1024
           (fun frame : bytes => frame) (create_upto 100) (Ok [])
           (fun _ => Ok []) keep_add_qr keep_finish 2 "pngdir" infile run
           ltac:(lia) Hrun eq_refl).
Defined.

Lemma run_backup_exports_prefix_witness :
  let infile := [x41; x42; x43] in
  0 < 2 /\
  Full.setup_exporter (Ok (@nil bytes)) (fun _ => Ok []) "pdf"
    (inject_Z (Z.of_nat (length infile)) / inject_Z 2 + 1)%Q = Ok [] /\
  exists run n exporter1,
    run_backup_keep 1024 10 2 "pdf" infile = Some run /\
    (n <= length (chunk_stream 2 infile))%nat /\
    Full.export_all (fun frame : bytes => frame) (create_upto 10) keep_add_qr
      [] (firstn n (chunk_stream 2 infile)) = Ok exporter1 /\
    (forall chunk, In chunk (firstn n (chunk_stream 2 infile)) ->
                   0 <= snd chunk < 2 ^ 32) /\
    match Full.ended run with
    | Ok _ =>
        n = length (chunk_stream 2 infile) /\
        exists exporter2,
          keep_finish exporter1 infile = Ok exporter2 /\
          Full.exporter_left run = Some exporter2
    | Raise _ => Full.exporter_left run = Some exporter1
    end.
Proof.
  intros infile. split; [lia|]. split; [reflexivity|].
  exact (run_backup_exports_prefix bytes bytes (list bytes) 1024
           (fun frame : bytes => frame) (create_upto 10) (Ok [])
           (fun _ => Ok []) keep_add_qr keep_finish 2 "pdf" infile []
           ltac:(lia) eq_refl).
Defined.

Lemma run_backup_normal_run_witness :
  let infile := [x41; x42; x43; x44] in
  let frames := [frame_of [x41; x42] 0; frame_of [x43; x44] 2] in
  0 < 2 /\ 2 < 2 ^ 63 /\ 2 <= 1024 /\
  Z.of_nat (length infile) <= 2 ^ 32 /\
  Full.setup_exporter (Ok (@nil bytes)) (fun _ => Ok []) "pngdir"
    (inject_Z (Z.of_nat (length infile)) / inject_Z 2 + 1)%Q = Ok [] /\
  Full.export_all (fun frame : bytes => frame) (create_upto 100) keep_add_qr
    [] (chunk_stream 2 infile) = Ok frames /\
  keep_finish frames infile = Ok frames /\
  run_backup_keep 1024 100 2 "pngdir" infile
    = Some (Full.mk_run (Some (Z.of_nat (length infile) / 2 + 1))
              (Some frames) (Ok tt)) /\
  Z.of_nat (length (chunk_stream 2 infile))
    = (Z.of_nat (length infile) + 2 - 1) / 2.
Proof.
  intros infile frames.
  assert (Full.export_all (fun frame : bytes => frame) (create_upto 100)
            keep_add_qr [] (chunk_stream 2 infile) = Ok frames) as Hall
    by (vm_compute; reflexivity).
  split; [lia|]. split; [lia|]. split; [lia|]. split; [cbn; lia|].
  split; [reflexivity|]. split; [exact Hall|]. split; [reflexivity|].
  exact (run_backup_normal_run bytes bytes (list bytes) 1024
           (fun frame : bytes => frame) (create_upto 100) (Ok [])
           (fun _ => Ok []) keep_add_qr keep_finish 2 "pngdir" infile
           [] frames frames ltac:(lia) ltac:(lia) ltac:(lia)
           ltac:(cbn; lia) eq_refl Hall eq_refl).
Defined.

Lemma run_backup_total_vs_codes_witness :
  let infile := [x41; x42; x43; x44] in
  let frames := [frame_of [x41; x42] 0; frame_of [x43; x44] 2] in
  let run := Full.mk_run (Some 3) (Some frames) (Ok tt) in
  0 < 2 /\
  Z.of_nat (length infile) <= 2 ^ 32 /\
  run_backup_keep 1024 100 2 "pngdir" infile = Some run /\
  Full.ended run = Ok tt /\
  (exists exporter0 exporter1,
     Full.setup_exporter (Ok (@nil bytes)) (fun _ => Ok []) "pngdir"
       (inject_Z (Z.of_nat (length infile)) / inject_Z 2 + 1)%Q
       = Ok exporter0 /\
     Full.export_all (fun frame : bytes => frame) (create_upto 100) keep_add_qr
       exporter0 (chunk_stream 2 infile) = Ok exporter1) /\
  Full.qr_total run
  = Some (Z.of_nat (length (chunk_stream 2 infile))
          + (if Z.of_nat (length infile) mod 2 =? 0 then 1 else 0)).
Proof.
  intros infile frames run.
  assert (run_backup_keep 1024 100 2 "pngdir" infile = Some run) as Hrun
    by (vm_compute; reflexivity).
  split; [lia|]. split; [cbn; lia|]. split; [exact Hrun|].
  split; [reflexivity|].
  exact (run_backup_total_vs_codes bytes bytes (list bytes) 1024
           (fun frame : bytes => frame) (create_upto 100) (Ok [])
           (fun _ => Ok []) keep_add_qr keep_finish 2 "pngdir" infile run
           ltac:(lia) ltac:(cbn; lia) Hrun eq_refl).
Defined.


Lemma run_backup_stops_at_export_error_witness :
  let infile := [x41; x42; x43] in
  0 < 2 /\ 2 < 2 ^ 63 /\ 2 <= 1024 /\
  Z.of_nat (length infile) <= 2 ^ 32 /\
  Full.setup_exporter (Ok (@nil bytes)) (fun _ => Ok []) "pngdir"
    (inject_Z (Z.of_nat (length infile)) / inject_Z 2 + 1)%Q = Ok [] /\
  chunk_stream 2 infile = [] ++ ([x41; x42], 0) :: [([x43], 2)] /\
  Full.export_all (fun frame : bytes => frame) (create_upto 10) keep_add_qr
    [] [] = Ok [] /\
  Full.export (fun frame : bytes => frame) (create_upto 10) keep_add_qr
    [] (frame_of [x41; x42] 0) = Raise ValueError /\
  exists logged,
    run_backup_keep 1024 10 2 "pngdir" infile
    = Some (Full.mk_run logged (Some []) (Raise ValueError)).
Proof.
  intros infile.
  assert (chunk_stream 2 infile = [] ++ ([x41; x42], 0) :: [([x43], 2)])
    as Hstream by (vm_compute; reflexivity).
  assert (Full.export (fun frame : bytes => frame) (create_upto 10) keep_add_qr
            [] (frame_of [x41; x42] 0) = Raise ValueError) as Hexport
    by (vm_compute; reflexivity).
  split; [lia|]. split; [lia|]. split; [lia|]. split; [cbn; lia|].
  split; [reflexivity|]. split; [exact Hstream|]. split; [reflexivity|].
  split; [exact Hexport|].
  exact (run_backup_stops_at_export_error bytes bytes (list bytes) 1024
           (fun frame : bytes => frame) (create_upto 10) (Ok [])
           (fun _ => Ok []) keep_add_qr keep_finish 2 "pngdir" infile
           [] ([x41; x42], 0) [([x43], 2)] [] [] ValueError
           ltac:(lia) ltac:(lia) ltac:(lia) ltac:(cbn; lia) eq_refl
           Hstream eq_refl Hexport).
Defined.

Lemma backup_restore_roundtrip_witness :
  let infile := [x41; x42; x43; x44; x45] in
  let frames := [frame_of [x41; x42] 0; frame_of [x43; x44] 2; frame_of [x45] 4] in
  let run := Full.mk_run (Some 3) (Some frames) (Ok tt) in
  let scan := fun image : list bytes => image in
  let decode := fun frame : bytes => Ok frame in
  let importer := [[frame_of [x45] 4; frame_of [x41; x42] 0];
                   [frame_of [x43; x44] 2]] in
  0 < 2 /\
  run_backup_keep 1024 100 2 "pngdir" infile = Some run /\
  Full.ended run = Ok tt /\
  (forall frame : bytes, decode frame = Ok frame) /\
  Permutation (concat (map scan importer))
    (map (fun chunk => frame_of (fst chunk) (snd chunk)) (chunk_stream 2 infile)) /\
  run_restore scan decode importer = (infile, Ok tt).
Proof.
  intros infile frames run scan decode importer.
  assert (run_backup_keep 1024 100 2 "pngdir" infile = Some run) as Hrun
    by (vm_compute; reflexivity).
  assert (Permutation (concat (map scan importer))
            (map (fun chunk => frame_of (fst chunk) (snd chunk))
                 (chunk_stream 2 infile))) as Hperm.
  { replace (chunk_stream 2 infile)
      with [([x41; x42], 0); ([x43; x44], 2); ([x45], 4)]
      by (vm_compute; reflexivity).
    cbn [scan importer map concat app fst snd].
    apply (perm_trans (perm_swap _ _ _)). apply perm_skip, perm_swap. }
  split; [lia|]. split; [exact Hrun|]. split; [reflexivity|].
  split; [reflexivity|]. split; [exact Hperm|].
  exact (backup_restore_roundtrip (list bytes) bytes bytes (list bytes) 1024
           (fun frame : bytes => frame) (create_upto 100) (Ok [])
           (fun _ => Ok []) keep_add_qr keep_finish scan decode
           2 "pngdir" infile run importer
           ltac:(lia) Hrun eq_refl (fun frame => eq_refl) Hperm).
Defined.
